(** * ToolUniverse [utils.py]: extracting, validating and comparing function calls

    A shallow embedding of [src/tooluniverse/utils.py]:
    - [evaluate_function_call]   (schema validation of a call),
    - [compare_function_calls]   (comparison of a predicted and a reference call),
    - [extract_function_call_json] and [extract_function_call_json_from_qwen]
      (recovery of a JSON call from raw model output),
    together with the pieces of the Python runtime they rest on: [str]
    operations ([find], slicing, [strip], [join]), the values [json.loads]
    produces, their [==], [isinstance] and [type(..).__name__], and the JSON
    decoder itself.

    Conventions.  A Python [str] is a list of code points.  Indices are [Z], as
    [str.find] answers [-1] and slices take negative bounds.  [print] is
    modelled by the list of lines a call emits, returned next to its value;
    [as_called] then writes them to the standard output, which raises on a
    text it cannot encode.
    The interpreter's resource limits (recursion depth, the cap on the number
    of digits of an [int] literal) are not modelled. *)

From Stdlib Require Import ZArith NArith List String Ascii Bool Lia.
From Stdlib Require Import Sorting.Permutation.
From Stdlib Require Import Floats.SpecFloat.
Import ListNotations.

Open Scope Z_scope.

(* ================================================================== *)
(** * Python strings *)
(* ================================================================== *)

Module PyStr.

(** One Unicode code point. *)
Definition char := N.

Definition str := list char.

(** The [str] denoted by an ASCII literal of the source. *)
Definition lit (s : string) : str :=
  List.map N_of_ascii (list_ascii_of_string s).

Definition len (s : str) : Z := Z.of_nat (List.length s).

Fixpoint eqb (s t : str) : bool :=
  match s, t with
  | [], [] => true
  | c :: s', d :: t' => N.eqb c d && eqb s' t'
  | _, _ => false
  end.

Fixpoint startswith (prefix s : str) : bool :=
  match prefix, s with
  | [], _ => true
  | _ :: _, [] => false
  | c :: prefix', d :: s' => N.eqb c d && startswith prefix' s'
  end.

(** [find_from sub s i]: the scan of [str.find] once [i] characters have
    been passed over. *)
Fixpoint find_from (sub s : str) (i : Z) : Z :=
  if startswith sub s then i
  else match s with
       | [] => -1
       | _ :: s' => find_from sub s' (i + 1)
       end.

(** [s.find(sub)]: lowest index at which [sub] occurs in [s], or [-1]. *)
Definition find (sub s : str) : Z := find_from sub s 0.

(** Clamping of a slice bound, as [PySlice_AdjustIndices] does for step 1. *)
Definition adjust (n i : Z) : Z :=
  if i <? 0 then Z.max 0 (i + n) else Z.min i n.

(** [s[start:stop]]; [None] is an omitted bound. *)
Definition slice (s : str) (start stop : option Z) : str :=
  let n := len s in
  let lo := match start with Some i => adjust n i | None => 0 end in
  let hi := match stop with Some j => adjust n j | None => n end in
  firstn (Z.to_nat (hi - lo)) (skipn (Z.to_nat lo) s).

(** [Py_UNICODE_ISSPACE]: the characters [str.strip()] removes. *)
Definition isspace (c : char) : bool :=
  let c := Z.of_N c in
  ((9 <=? c) && (c <=? 13)) || ((28 <=? c) && (c <=? 32))
  || (c =? 133) || (c =? 160) || (c =? 5760)
  || ((8192 <=? c) && (c <=? 8202))
  || (c =? 8232) || (c =? 8233) || (c =? 8239) || (c =? 8287)
  || (c =? 12288).

Fixpoint lstrip (s : str) : str :=
  match s with
  | c :: s' => if isspace c then lstrip s' else s
  | [] => []
  end.

Definition rstrip (s : str) : str := rev (lstrip (rev s)).

(** [s.strip()] *)
Definition strip (s : str) : str := rstrip (lstrip s).

(** [''.join(l)] *)
Definition join (l : list str) : str := List.concat l.

(** [sub in s] in the words of the specification: [sub] occurs somewhere. *)
Definition occurs (sub s : str) : Prop :=
  exists pre post, s = pre ++ sub ++ post.

End PyStr.

Import PyStr.

(* ================================================================== *)
(** * Python values *)
(* ================================================================== *)

(** A [float] object.  The finite and infinite ones are IEEE 754 binary64
    numbers in the representation of [SpecFloat].  A NaN carries the identity
    of its object: a NaN is the one value that is not equal to itself, so
    Python's containers, which compare items with [is] before [==], tell one
    NaN object from another. *)
Inductive pyfloat :=
| FNaN (oid : nat)
| FInf (neg : bool)
| FZero (neg : bool)
| FFinite (neg : bool) (m : positive) (e : Z).

#[local] Set Warnings "-register-all".

(** The values [json.loads] can produce: [None], [bool], [int], [float],
    [str], [list] and [dict] with [str] keys.  A [dict] keeps its items in
    insertion order. *)
Inductive value :=
| VNone
| VBool (b : bool)
| VInt (z : Z)
| VFloat (f : pyfloat)
| VStr (s : str)
| VList (l : list value)
| VDict (d : list (str * value)).

Definition dict := list (str * value).

Module PyDict.

(** [d.get(k)] / the lookup behind [d[k]] and [k in d]. *)
Fixpoint get {A : Type} (k : str) (d : list (str * A)) : option A :=
  match d with
  | [] => None
  | (k', v) :: d' => if PyStr.eqb k k' then Some v else get k d'
  end.

(** [k in d] *)
Definition mem {A : Type} (k : str) (d : list (str * A)) : bool :=
  match get k d with Some _ => true | None => false end.

(** [d.keys()], in iteration order. *)
Definition keys {A : Type} (d : list (str * A)) : list str := List.map fst d.

(** [d[k] = v]: an existing key keeps its place, a new one goes last. *)
Fixpoint set {A : Type} (k : str) (v : A) (d : list (str * A)) : list (str * A) :=
  match d with
  | [] => [(k, v)]
  | (k', v') :: d' =>
      if PyStr.eqb k k' then (k', v) :: d' else (k', v') :: set k v d'
  end.

(** [dict(pairs)] *)
Definition of_pairs {A : Type} (pairs : list (str * A)) : list (str * A) :=
  fold_left (fun d kv => set (fst kv) (snd kv) d) pairs [].

End PyDict.

Module PyFloat.

Definition prec : Z := 53.
Definition emax : Z := 1024.

Definition to_spec (f : pyfloat) : spec_float :=
  match f with
  | FNaN _ => S754_nan
  | FInf s => S754_infinity s
  | FZero s => S754_zero s
  | FFinite s m e => S754_finite s m e
  end.

(** A computed float is a fresh object; [oid] names it if it is a NaN. *)
Definition of_spec (oid : nat) (f : spec_float) : pyfloat :=
  match f with
  | S754_nan => FNaN oid
  | S754_infinity s => FInf s
  | S754_zero s => FZero s
  | S754_finite s m e => FFinite s m e
  end.

Definition is_nan (f : pyfloat) : bool :=
  match f with FNaN _ => true | _ => false end.

(** [float.__eq__] on two floats. *)
Definition eqb (f g : pyfloat) : bool := SFeqb (to_spec f) (to_spec g).

(** [float.__eq__] against an [int]: the comparison is exact. *)
Definition eqb_int (f : pyfloat) (z : Z) : bool :=
  match f with
  | FNaN _ | FInf _ => false
  | FZero _ => z =? 0
  | FFinite s m e =>
      let mz := if s then Z.neg m else Z.pos m in
      if 0 <=? e then mz * 2 ^ e =? z else mz =? z * 2 ^ (- e)
  end.

(** [float(text)] for the decimal [(-1)^neg * m * 10^e]: the nearest
    binary64 number, ties to even. *)
Definition of_decimal (neg : bool) (m : Z) (e : Z) : pyfloat :=
  match m with
  | Z0 => FZero neg
  | Zneg _ => FZero neg
  | Zpos p =>
      if 0 <=? e
      then of_spec 0 (binary_round prec emax neg (Z.to_pos (Zpos p * 10 ^ e)) 0)
      else
        let '(q, e', l) :=
          SFdiv_core_binary prec emax (Zpos p) 0 (10 ^ (- e)) 0 in
        of_spec 0 (binary_round_aux prec emax neg q e' l)
  end.

End PyFloat.

Module PyValue.

(** Python's classes of the values above. *)
Inductive pytype := TNoneType | TBool | TInt | TFloat | TStr | TList | TDict.

(** [type(v)] *)
Definition type_of (v : value) : pytype :=
  match v with
  | VNone => TNoneType
  | VBool _ => TBool
  | VInt _ => TInt
  | VFloat _ => TFloat
  | VStr _ => TStr
  | VList _ => TList
  | VDict _ => TDict
  end.

(** [cls.__name__] *)
Definition type_name (t : pytype) : str :=
  match t with
  | TNoneType => lit "NoneType"
  | TBool => lit "bool"
  | TInt => lit "int"
  | TFloat => lit "float"
  | TStr => lit "str"
  | TList => lit "list"
  | TDict => lit "dict"
  end.

(** [issubclass(t, u)]: [bool] is a subclass of [int], and that is the
    only proper inheritance among these classes. *)
Definition issubclass (t u : pytype) : bool :=
  match t, u with
  | TNoneType, TNoneType | TBool, TBool | TInt, TInt | TFloat, TFloat
  | TStr, TStr | TList, TList | TDict, TDict => true
  | TBool, TInt => true
  | _, _ => false
  end.

(** [isinstance(v, t)] *)
Definition isinstance (v : value) (t : pytype) : bool :=
  issubclass (type_of v) t.

(** [a is b], as far as it can be observed through [==]: on NaN objects. *)
Definition same_object (a b : value) : bool :=
  match a, b with
  | VFloat (FNaN i), VFloat (FNaN j) => Nat.eqb i j
  | _, _ => false
  end.

Definition int_of_bool (b : bool) : Z := if b then 1 else 0.

(** [a == b].  Numbers compare by value across [bool], [int] and [float];
    lists compare item by item and dicts key by key, and both use
    [x is y or x == y] on their items ([PyObject_RichCompareBool]). *)
Fixpoint py_eq (a b : value) {struct a} : bool :=
  match a with
  | VNone => match b with VNone => true | _ => false end
  | VBool x =>
      match b with
      | VBool y => int_of_bool x =? int_of_bool y
      | VInt y => int_of_bool x =? y
      | VFloat g => PyFloat.eqb_int g (int_of_bool x)
      | _ => false
      end
  | VInt x =>
      match b with
      | VBool y => x =? int_of_bool y
      | VInt y => x =? y
      | VFloat g => PyFloat.eqb_int g x
      | _ => false
      end
  | VFloat f =>
      match b with
      | VBool y => PyFloat.eqb_int f (int_of_bool y)
      | VInt y => PyFloat.eqb_int f y
      | VFloat g => PyFloat.eqb f g
      | _ => false
      end
  | VStr s => match b with VStr t => PyStr.eqb s t | _ => false end
  | VList l =>
      match b with
      | VList m =>
          (fix items (l m : list value) {struct l} : bool :=
             match l, m with
             | [], [] => true
             | x :: l', y :: m' => (same_object x y || py_eq x y) && items l' m'
             | _, _ => false
             end) l m
      | _ => false
      end
  | VDict d =>
      match b with
      | VDict e =>
          (Nat.eqb (List.length d) (List.length e))
          && (fix entries (d : list (str * value)) {struct d} : bool :=
                match d with
                | [] => true
                | (k, x) :: d' =>
                    match PyDict.get k e with
                    | Some y => (same_object x y || py_eq x y) && entries d'
                    | None => false
                    end
                end) d
      | _ => false
      end
  end.

(** [a != b] *)
Definition py_ne (a b : value) : bool := negb (py_eq a b).

End PyValue.

Import PyValue.

(* ================================================================== *)
(** * The JSON decoder: [json.loads] *)
(* ================================================================== *)

(** The decoder of Python's [json] package with its default settings
    ([strict] strings, [NaN], [Infinity] and [-Infinity] accepted, objects
    decoded to [dict]).  Every way in which it rejects a text raises
    [JSONDecodeError]; the model answers [None] for all of them. *)
Module Json.

Definition ch (a : ascii) : char := N_of_ascii a.

Definition is_char (a : ascii) (c : char) : bool := N.eqb c (ch a).

(** The double quote. *)
Definition quote : char := 34%N.

(** The decoder's [WHITESPACE]: space, tab, line feed, carriage return. *)
Definition is_ws (c : char) : bool :=
  N.eqb c 32 || N.eqb c 9 || N.eqb c 10 || N.eqb c 13.

Fixpoint skip_ws (s : str) : str :=
  match s with
  | c :: s' => if is_ws c then skip_ws s' else s
  | [] => []
  end.

Definition digit (c : char) : option Z :=
  if (48 <=? c)%N && (c <=? 57)%N then Some (Z.of_N c - 48) else None.

Definition hexdigit (c : char) : option Z :=
  if (48 <=? c)%N && (c <=? 57)%N then Some (Z.of_N c - 48)
  else if (65 <=? c)%N && (c <=? 70)%N then Some (Z.of_N c - 55)
  else if (97 <=? c)%N && (c <=? 102)%N then Some (Z.of_N c - 87)
  else None.

(** [int(h1 h2 h3 h4, 16)] for a [\uXXXX] escape. *)
Definition hex4 (h1 h2 h3 h4 : char) : option Z :=
  match hexdigit h1, hexdigit h2, hexdigit h3, hexdigit h4 with
  | Some a, Some b, Some c, Some d => Some (((a * 16 + b) * 16 + c) * 16 + d)
  | _, _, _, _ => None
  end.

(** The decoder's [BACKSLASH] table. *)
Definition escape (c : char) : option char :=
  if N.eqb c quote then Some quote
  else if is_char "\" c then Some (ch "\")
  else if is_char "/" c then Some (ch "/")
  else if is_char "b" c then Some 8%N
  else if is_char "f" c then Some 12%N
  else if is_char "n" c then Some 10%N
  else if is_char "r" c then Some 13%N
  else if is_char "t" c then Some 9%N
  else None.

(** [scanstring]: the text after an opening quote, up to the closing one.
    [acc] holds the decoded characters, last first. *)
Fixpoint scanstring (s : str) (acc : str) {struct s} : option (str * str) :=
  match s with
  | [] => None
  | c :: t =>
      if N.eqb c quote then Some (rev acc, t)
      else if is_char "\" c then
        match t with
        | [] => None
        | e :: t1 =>
            if is_char "u" e then
              match t1 with
              | h1 :: h2 :: h3 :: h4 :: t2 =>
                  match hex4 h1 h2 h3 h4 with
                  | None => None
                  | Some uni =>
                      if (55296 <=? uni) && (uni <=? 56319) then
                        match t2 with
                        | b :: u :: t3 =>
                            if is_char "\" b && is_char "u" u then
                              match t3 with
                              | g1 :: g2 :: g3 :: g4 :: t4 =>
                                  match hex4 g1 g2 g3 g4 with
                                  | None => None
                                  | Some uni2 =>
                                      if (56320 <=? uni2) && (uni2 <=? 57343)
                                      then
                                        scanstring t4
                                          (Z.to_N
                                             (65536
                                              + Z.lor
                                                  (Z.shiftl (uni - 55296) 10)
                                                  (uni2 - 56320))
                                           :: acc)
                                      else scanstring t2 (Z.to_N uni :: acc)
                                  end
                              | _ => None
                              end
                            else scanstring t2 (Z.to_N uni :: acc)
                        | _ => scanstring t2 (Z.to_N uni :: acc)
                        end
                      else scanstring t2 (Z.to_N uni :: acc)
                  end
              | _ => None
              end
            else
              match escape e with
              | Some d => scanstring t1 (d :: acc)
              | None => None
              end
        end
      else if (c <? 32)%N then None
      else scanstring t (c :: acc)
  end.

(** The longest run of decimal digits at the head of [s]. *)
Fixpoint span_digits (s : str) : list Z * str :=
  match s with
  | c :: s' =>
      match digit c with
      | Some d => let '(ds, r) := span_digits s' in (d :: ds, r)
      | None => ([], s)
      end
  | [] => ([], [])
  end.

Definition Z_of_digits (ds : list Z) : Z :=
  fold_left (fun n d => 10 * n + d) ds 0.

(** Group 1 of [NUMBER_RE] without its sign: a lone [0], or a digit from
    1 to 9 followed by any number of digits. *)
Definition scan_integer (s : str) : option (list Z * str) :=
  match s with
  | c :: s' =>
      match digit c with
      | Some 0 => Some ([0], s')
      | Some d => let '(ds, r) := span_digits s' in Some (d :: ds, r)
      | None => None
      end
  | [] => None
  end.

(** Group 2 of [NUMBER_RE], optional: a dot and at least one digit. *)
Definition scan_frac (s : str) : option (list Z) * str :=
  match s with
  | c :: s' =>
      if is_char "." c then
        match span_digits s' with
        | ([], _) => (None, s)
        | (ds, r) => (Some ds, r)
        end
      else (None, s)
  | [] => (None, s)
  end.

(** Group 3 of [NUMBER_RE], optional: [e] or [E], an optional sign and at
    least one digit. *)
Definition scan_exp (s : str) : option Z * str :=
  match s with
  | c :: s' =>
      if is_char "e" c || is_char "E" c then
        let '(neg, s1) :=
          match s' with
          | g :: s'' =>
              if is_char "-" g then (true, s'')
              else if is_char "+" g then (false, s'')
              else (false, s')
          | [] => (false, s')
          end in
        match span_digits s1 with
        | ([], _) => (None, s)
        | (ds, r) => (Some (if neg then - Z_of_digits ds else Z_of_digits ds), r)
        end
      else (None, s)
  | [] => (None, s)
  end.

(** A match of [NUMBER_RE] at the head of [s]: an [int] when the literal
    has neither fraction nor exponent, a [float] otherwise. *)
Definition scan_number (s : str) : option (value * str) :=
  let '(neg, s0) :=
    match s with
    | c :: s' => if is_char "-" c then (true, s') else (false, s)
    | [] => (false, s)
    end in
  match scan_integer s0 with
  | None => None
  | Some (ds, r1) =>
      let '(frac, r2) := scan_frac r1 in
      let '(exp, r3) := scan_exp r2 in
      match frac, exp with
      | None, None =>
          Some (VInt (if neg then - Z_of_digits ds else Z_of_digits ds), r3)
      | _, _ =>
          let fs := match frac with Some fs => fs | None => [] end in
          let e := match exp with Some e => e | None => 0 end in
          Some (VFloat (PyFloat.of_decimal neg (Z_of_digits (ds ++ fs))
                          (e - Z.of_nat (List.length fs))), r3)
      end
  end.

(** The objects [json.decoder.NaN], [PosInf] and [NegInf]: every [NaN] of
    every decoded text is the same object. *)
Definition NaN : pyfloat := FNaN 0.
Definition PosInf : pyfloat := FInf false.
Definition NegInf : pyfloat := FInf true.

(** The constants the scanner tries when no number matches. *)
Definition scan_constant (s : str) : option (value * str) :=
  if startswith (lit "NaN") s then Some (VFloat NaN, skipn 3 s)
  else if startswith (lit "Infinity") s then Some (VFloat PosInf, skipn 8 s)
  else if startswith (lit "-Infinity") s then Some (VFloat NegInf, skipn 9 s)
  else None.

Inductive parse (A : Type) :=
| Parsed (a : A) (rest : str)
| Invalid
| Exhausted.
Arguments Parsed {A}.
Arguments Invalid {A}.
Arguments Exhausted {A}.

(** [scan_once], [JSONArray] and [JSONObject].  Python recurs on the
    nesting of the text; [fuel] bounds the number of calls, and
    [Exhausted] reports that it ran out. *)
Fixpoint scan_once (fuel : nat) (s : str) {struct fuel} : parse value :=
  match fuel with
  | O => Exhausted
  | S fuel' =>
      match s with
      | [] => Invalid
      | c :: t =>
          if N.eqb c quote then
            match scanstring t [] with
            | Some (x, r) => Parsed (VStr x) r
            | None => Invalid
            end
          else if is_char "{" c then
            match skip_ws t with
            | c1 :: r =>
                if is_char "}" c1 then Parsed (VDict []) r
                else if N.eqb c1 quote then members fuel' r []
                else Invalid
            | [] => Invalid
            end
          else if is_char "[" c then
            match skip_ws t with
            | c1 :: r =>
                if is_char "]" c1 then Parsed (VList []) r
                else elements fuel' (c1 :: r) []
            | [] => Invalid
            end
          else if startswith (lit "null") s then Parsed VNone (skipn 4 s)
          else if startswith (lit "true") s then Parsed (VBool true) (skipn 4 s)
          else if startswith (lit "false") s then Parsed (VBool false) (skipn 5 s)
          else
            match scan_number s with
            | Some (v, r) => Parsed v r
            | None =>
                match scan_constant s with
                | Some (v, r) => Parsed v r
                | None => Invalid
                end
            end
      end
  end

(** The items of an array, [s] standing at the next value. *)
with elements (fuel : nat) (s : str) (acc : list value) {struct fuel}
  : parse value :=
  match fuel with
  | O => Exhausted
  | S fuel' =>
      match scan_once fuel' s with
      | Parsed v r =>
          match skip_ws r with
          | c :: r' =>
              if is_char "]" c then Parsed (VList (rev (v :: acc))) r'
              else if is_char "," c then elements fuel' (skip_ws r') (v :: acc)
              else Invalid
          | [] => Invalid
          end
      | Invalid => Invalid
      | Exhausted => Exhausted
      end
  end

(** The members of an object, [s] standing just after the quote that
    opens the next key. *)
with members (fuel : nat) (s : str) (acc : list (str * value)) {struct fuel}
  : parse value :=
  match fuel with
  | O => Exhausted
  | S fuel' =>
      match scanstring s [] with
      | None => Invalid
      | Some (key, r) =>
          match skip_ws r with
          | c :: r1 =>
              if is_char ":" c then
                match scan_once fuel' (skip_ws r1) with
                | Parsed v r2 =>
                    match skip_ws r2 with
                    | c2 :: r3 =>
                        if is_char "}" c2 then
                          Parsed (VDict (PyDict.of_pairs (rev ((key, v) :: acc)))) r3
                        else if is_char "," c2 then
                          match skip_ws r3 with
                          | c3 :: r4 =>
                              if N.eqb c3 quote
                              then members fuel' r4 ((key, v) :: acc)
                              else Invalid
                          | [] => Invalid
                          end
                        else Invalid
                    | [] => Invalid
                    end
                | Invalid => Invalid
                | Exhausted => Exhausted
                end
              else Invalid
          | [] => Invalid
          end
      end
  end.

(** Calls enough for any text of the length of [s]. *)
Definition fuel_for (s : str) : nat := S (2 * List.length s).

(** [json.loads(s)]: one value, with whitespace allowed around it and
    nothing else; [None] stands for [JSONDecodeError]. *)
Definition loads (s : str) : option value :=
  match scan_once (fuel_for s) (skip_ws s) with
  | Parsed v r =>
      match skip_ws r with
      | [] => Some v
      | _ :: _ => None
      end
  | Invalid => None
  | Exhausted => None
  end.

End Json.

(* ================================================================== *)
(** * Results, reasons, exceptions and output *)
(* ================================================================== *)

(** What a replacement field of an f-string shows; [format] renders it. *)
Inductive shown :=
| ShowStr (s : str)
| ShowStrList (l : list str)
| ShowStrSet (elements : list str)
| ShowTypeMismatches (l : list (str * str * str))
| ShowValueMismatches (l : list (str * value * value)).

(** An f-string: literal text and replacement fields, in order. *)
Inductive fragment :=
| Text (s : str)
| Field (x : shown).

Definition reason := list fragment.

(** The [(ok, reason)] pair the validators return. *)
Definition verdict : Type := bool * reason.

Inductive exn :=
| KeyError (key : str)
| UnicodeEncodeError.

(** The outcome of a call that may raise. *)
Inductive outcome (A : Type) :=
| Return (a : A)
| Raise (e : exn).
Arguments Return {A}.
Arguments Raise {A}.

Definition bind {A B : Type} (m : outcome A) (k : A -> outcome B) : outcome B :=
  match m with
  | Return a => k a
  | Raise e => Raise e
  end.

Notation "x <- m ;; k" := (bind m (fun x => k))
  (at level 61, m at next level, right associativity).

(** [d[key]] *)
Definition subscript (d : dict) (key : str) : outcome value :=
  match PyDict.get key d with
  | Some v => Return v
  | None => Raise (KeyError key)
  end.

(** The truth value of a list, as in [if missing_params:]. *)
Definition nonempty {A : Type} (l : list A) : bool :=
  match l with
  | [] => false
  | _ :: _ => true
  end.

(** One call of [print]. *)
Inductive printed :=
| PrintStr (args : list str)
| PrintError (text : str).   (* [text] followed by a [JSONDecodeError] *)

(* ================================================================== *)
(** * The data of [utils.py] *)
(* ================================================================== *)

(** One entry of [tool_definition["parameter"]["properties"]]; [required]
    is [None] when the descriptor has no such key. *)
Record property := {
  type : str;
  required : option bool
}.

Record tool_definition := {
  tool_name : str;
  properties : list (str * property)
}.

(** A function call: [{"name": ..., "arguments": {...}}]. *)
Record function_call := {
  name : str;
  arguments : dict
}.

(** The same call as the [dict] the extractors return. *)
Definition value_of_call (c : function_call) : value :=
  VDict [(lit "name", VStr (name c)); (lit "arguments", VDict (arguments c))].

(** What the extractors are given: a [dict], or text in pieces. *)
Inductive llm_output :=
| Structured (d : dict)
| Fragments (lst : list str).

(** What the extractors return: [function_call_json] alone, or the pair
    [(function_call_json, message)].  Python's [None] is [VNone]. *)
Inductive extraction :=
| Bare (function_call_json : value)
| WithMessage (function_call_json : value) (message : str).

(* ================================================================== *)
(** * [evaluate_function_call] *)
(* ================================================================== *)

Definition type_map : list (str * pytype) :=
  [ (lit "string", TStr);
    (lit "integer", TInt);
    (lit "number", TFloat);
    (lit "boolean", TBool);
    (lit "array", TList);
    (lit "object", TDict) ].

(** [value.get("required", False)], taken as a condition. *)
Definition is_required (p : property) : bool :=
  match required p with Some b => b | None => false end.

Definition required_params (td : tool_definition) : list str :=
  List.map fst (List.filter (fun kv => is_required (snd kv)) (properties td)).

Definition missing_params (td : tool_definition) (fc : function_call) : list str :=
  List.filter (fun param => negb (PyDict.mem param (arguments fc)))
    (required_params td).

(** The loop over [function_call["arguments"].items()].  [inl] is the
    [return] inside the loop, [inr] the two lists when the loop ends. *)
Fixpoint check_arguments (valid_params : list (str * property))
    (items : dict) (invalid_params : list str)
    (type_mismatches : list (str * str * str))
  : verdict + (list str * list (str * str * str)) :=
  match items with
  | [] => inr (invalid_params, type_mismatches)
  | (param, value) :: items' =>
      match PyDict.get param valid_params with
      | None =>
          check_arguments valid_params items'
            (invalid_params ++ [param]) type_mismatches
      | Some p =>
          let expected_type := type p in
          match PyDict.get expected_type type_map with
          | None =>
              inl (false, [Text (lit "Unsupported parameter type: ");
                           Field (ShowStr expected_type)])
          | Some cls =>
              if negb (isinstance value cls)
              then check_arguments valid_params items' invalid_params
                     (type_mismatches
                      ++ [(param, expected_type, type_name (type_of value))])
              else check_arguments valid_params items' invalid_params
                     type_mismatches
          end
      end
  end.

Definition evaluate_function_call (td : tool_definition) (fc : function_call)
  : verdict :=
  if negb (PyStr.eqb (tool_name td) (name fc)) then
    (false, [Text (lit "Function name does not match.")])
  else
    let missing_params := missing_params td fc in
    if nonempty missing_params then
      (false, [Text (lit "Missing required parameters: ");
               Field (ShowStrList missing_params)])
    else
      match check_arguments (properties td) (arguments fc) [] [] with
      | inl early => early
      | inr (invalid_params, type_mismatches) =>
          if nonempty invalid_params then
            (false, [Text (lit "Invalid parameters provided: ");
                     Field (ShowStrList invalid_params)])
          else if nonempty type_mismatches then
            (false, [Text (lit "Type mismatches: ");
                     Field (ShowTypeMismatches type_mismatches)])
          else (true, [Text (lit "Function call is valid.")])
      end.

(* ================================================================== *)
(** * [compare_function_calls] *)
(* ================================================================== *)

(** [set(a.keys()) - set(b.keys())] *)
Definition keys_minus (a b : dict) : list str :=
  List.filter (fun k => negb (PyDict.mem k b)) (PyDict.keys a).

(** [set(a.keys()) != set(b.keys())] *)
Definition key_sets_differ (a b : dict) : bool :=
  negb (forallb (fun k => PyDict.mem k b) (PyDict.keys a)
        && forallb (fun k => PyDict.mem k a) (PyDict.keys b)).

(** The loop [for key in pred_arguments] that collects the mismatches. *)
Fixpoint collect_mismatches (pred_arguments gt_arguments : dict)
    (keys : list str) (mismatched_values : list (str * value * value))
  : outcome (list (str * value * value)) :=
  match keys with
  | [] => Return mismatched_values
  | key :: keys' =>
      p <- subscript pred_arguments key ;;
      g <- subscript gt_arguments key ;;
      if py_ne p g
      then collect_mismatches pred_arguments gt_arguments keys'
             (mismatched_values ++ [(key, p, g)])
      else collect_mismatches pred_arguments gt_arguments keys'
             mismatched_values
  end.

Definition compare_function_calls (pred_function_call gt_function_call : function_call)
    (compare_arguments compare_value : bool) : outcome verdict :=
  let pred_name := name pred_function_call in
  let pred_arguments := arguments pred_function_call in
  let gt_name := name gt_function_call in
  let gt_arguments := arguments gt_function_call in
  if negb (PyStr.eqb pred_name gt_name) then
    Return (false, [Text (lit "Function names do not match.")])
  else if compare_arguments && key_sets_differ pred_arguments gt_arguments then
    let missing_in_pred := keys_minus gt_arguments pred_arguments in
    let missing_in_gt := keys_minus pred_arguments gt_arguments in
    Return (false,
            [Text (lit "Argument keys do not match. Missing in predicted: ");
             Field (ShowStrSet missing_in_pred);
             Text (lit ", Missing in ground truth: ");
             Field (ShowStrSet missing_in_gt)])
  else if compare_value then
    mismatched_values <-
      collect_mismatches pred_arguments gt_arguments
        (PyDict.keys pred_arguments) [] ;;
    if nonempty mismatched_values then
      Return (false, [Text (lit "Argument values do not match: ");
                      Field (ShowValueMismatches mismatched_values)])
    else Return (true, [Text (lit "Function calls match.")])
  else Return (true, [Text (lit "Function calls match.")]).

(* ================================================================== *)
(** * [extract_function_call_json] *)
(* ================================================================== *)

(** The markers searched for in the text. *)
Definition TOOL_CALLS : str := lit "[TOOL_CALLS]".
Definition END_S : str := lit "</s>".
Definition EOM_ID : str := lit "<|eom_id|>".
Definition FUNCTIONCALL : str := lit "<functioncall>".
Definition FUNCTIONCALL_END : str := lit "</functioncall>".
Definition TOOL_CALL : str := lit "<tool_call>".
Definition TOOL_CALL_END : str := lit "</tool_call>".
Definition THINK : str := lit "<think>".
Definition THINK_END : str := lit "</think>".

Definition ESC : char := 27%N.

(** The end index of the [[TOOL_CALLS]] attempt: [</s>], else [<|eom_id|>]. *)
Definition tool_calls_index_end (result_str : str) : Z :=
  let index_end := find END_S result_str in
  if index_end =? -1 then find EOM_ID result_str else index_end.

(** [function_call_str] of the [[TOOL_CALLS]] attempt (lines 143-151). *)
Definition tool_calls_str (result_str : str) : str :=
  let index_start := find TOOL_CALLS result_str in
  let index_end := tool_calls_index_end result_str in
  if index_end =? -1
  then slice result_str (Some (index_start + len TOOL_CALLS)) None
  else slice result_str (Some (index_start + len TOOL_CALLS)) (Some index_end).

(** [function_call_str] of the [<functioncall>] attempt (lines 161-164). *)
Definition functioncall_str (result_str : str) : str :=
  let index_start := find FUNCTIONCALL result_str + len FUNCTIONCALL in
  let index_end := find FUNCTIONCALL_END result_str in
  slice result_str (Some index_start) (Some index_end).

Definition extract_function_call_json (lst : llm_output)
    (return_message verbose : bool) : extraction * list printed :=
  match lst with
  | Structured d =>
      (if return_message then WithMessage (VDict d) [] else Bare (VDict d), [])
  | Fragments lst =>
      let result_str := join lst in
      let out0 :=
        if verbose
        then [PrintStr [ESC :: lit "[1;34mPossible LLM outputs for function call:"
                          ++ ESC :: lit "[0m";
                        result_str]]
        else [] in
      match Json.loads (strip result_str) with
      | Some function_call_json =>
          (if return_message then WithMessage function_call_json []
           else Bare function_call_json, out0)
      | None =>
          let index_start := find TOOL_CALLS result_str in
          let function_call_str := tool_calls_str result_str in
          match Json.loads (strip function_call_str) with
          | Some function_call_json =>
              (if return_message
               then WithMessage function_call_json
                      (slice result_str None (Some index_start))
               else Bare function_call_json, out0)
          | None =>
              let out1 :=
                out0 ++ [PrintStr [lit "Multiple function calls not implemented for 'llama' format."]] in
              let function_call_str := functioncall_str result_str in
              match Json.loads (strip function_call_str) with
              | Some function_call_json => (Bare function_call_json, out1)
              | None =>
                  (if return_message then WithMessage VNone result_str
                   else Bare VNone,
                   out1 ++ [PrintError (lit "Not a function call:")])
              end
          end
      end
  end.

(* ================================================================== *)
(** * [extract_function_call_json_from_qwen] *)
(* ================================================================== *)

(** The function is defined twice in the file, with the same body; the
    second definition is the one in force. *)

(** Step 5: every format failed. *)
Definition qwen_failed (result_str : str) (return_message verbose : bool)
  : extraction * list printed :=
  (if return_message then WithMessage VNone result_str else Bare VNone,
   if verbose then [PrintStr [lit "Not a valid function call format for Qwen"]]
   else []).

(** [function_call_str] of step 4, when the step is attempted: both
    [<functioncall>] and [</functioncall>] must be found. *)
Definition qwen_functioncall_str (result_str : str) : option str :=
  let index_start := find FUNCTIONCALL result_str in
  if negb (index_start =? -1) then
    let index_start := index_start + len FUNCTIONCALL in
    let index_end := find FUNCTIONCALL_END result_str in
    if negb (index_end =? -1)
    then Some (slice result_str (Some index_start) (Some index_end))
    else None
  else None.

(** Step 4: the [<functioncall>] format. *)
Definition qwen_functioncall (result_str : str) (return_message verbose : bool)
  : extraction * list printed :=
  match qwen_functioncall_str result_str with
  | Some function_call_str =>
      match Json.loads (strip function_call_str) with
      | Some function_call_json =>
          (if return_message
           then WithMessage function_call_json
                  (slice result_str None (Some (find FUNCTIONCALL result_str)))
           else Bare function_call_json, [])
      | None =>
          let '(r, out) := qwen_failed result_str return_message verbose in
          (r, (if verbose
               then [PrintError (lit "Failed to parse JSON in <functioncall>: ")]
               else []) ++ out)
      end
  | None => qwen_failed result_str return_message verbose
  end.

(** [function_call_str] of step 3, when the step is attempted:
    [[TOOL_CALLS]] must be found. *)
Definition qwen_tool_calls_str (result_str : str) : option str :=
  let index_start := find TOOL_CALLS result_str in
  if negb (index_start =? -1) then
    let index_end := tool_calls_index_end result_str in
    if index_end =? -1
    then Some (slice result_str (Some (index_start + len TOOL_CALLS)) None)
    else Some (slice result_str (Some (index_start + len TOOL_CALLS))
                 (Some index_end))
  else None.

(** Step 3: the [[TOOL_CALLS]] format. *)
Definition qwen_tool_calls (result_str : str) (return_message verbose : bool)
  : extraction * list printed :=
  match qwen_tool_calls_str result_str with
  | Some function_call_str =>
      match Json.loads (strip function_call_str) with
      | Some function_call_json =>
          (if return_message
           then WithMessage function_call_json
                  (slice result_str None (Some (find TOOL_CALLS result_str)))
           else Bare function_call_json, [])
      | None =>
          let '(r, out) := qwen_functioncall result_str return_message verbose in
          (r, (if verbose
               then [PrintError (lit "Failed to parse JSON in [TOOL_CALLS]: ")]
               else []) ++ out)
      end
  | None => qwen_functioncall result_str return_message verbose
  end.

(** The message of step 2: the [<think>] block, else the text before
    [<tool_call>]. *)
Definition qwen_message (result_str : str) (tool_call_start : Z) : str :=
  let think_start := find THINK result_str in
  let think_end := find THINK_END result_str in
  if negb (think_start =? -1) && negb (think_end =? -1)
  then strip (slice result_str (Some (think_start + len THINK)) (Some think_end))
  else strip (slice result_str None (Some tool_call_start)).

(** [function_call_str] of step 2, when the step is attempted: both
    [<tool_call>] and [</tool_call>] must be found. *)
Definition qwen_tool_call_str (result_str : str) : option str :=
  let tool_call_start := find TOOL_CALL result_str in
  let tool_call_end := find TOOL_CALL_END result_str in
  if negb (tool_call_start =? -1) && negb (tool_call_end =? -1) then
    let json_start := tool_call_start + len TOOL_CALL in
    Some (strip (slice result_str (Some json_start) (Some tool_call_end)))
  else None.

(** Step 2: the [<tool_call>] format. *)
Definition qwen_tool_call (result_str : str) (return_message verbose : bool)
  : extraction * list printed :=
  match qwen_tool_call_str result_str with
  | Some function_call_str =>
      match Json.loads function_call_str with
      | Some function_call_json =>
          (if return_message
           then WithMessage function_call_json
                  (qwen_message result_str (find TOOL_CALL result_str))
           else Bare function_call_json, [])
      | None =>
          let '(r, out) := qwen_tool_calls result_str return_message verbose in
          (r, (if verbose
               then [PrintError (lit "Failed to parse JSON in <tool_call>: ")]
               else []) ++ out)
      end
  | None => qwen_tool_calls result_str return_message verbose
  end.

Definition extract_function_call_json_from_qwen (lst : llm_output)
    (return_message verbose : bool) : extraction * list printed :=
  match lst with
  | Structured d =>
      (if return_message then WithMessage (VDict d) [] else Bare (VDict d), [])
  | Fragments lst =>
      let result_str := join lst in
      let out0 :=
        if verbose
        then [PrintStr [ESC :: lit "[1;34mQwen LLM outputs for function call:"
                          ++ ESC :: lit "[0m";
                        result_str]]
        else [] in
      match Json.loads (strip result_str) with
      | Some function_call_json =>
          (if return_message then WithMessage function_call_json []
           else Bare function_call_json, out0)
      | None =>
          let '(r, out) := qwen_tool_call result_str return_message verbose in
          (r, out0 ++ out)
      end
  end.

(* ================================================================== *)
(** * The standard output *)
(* ================================================================== *)

(** A surrogate code point, U+D800 to U+DFFF.  A [str] may hold one. *)
Definition surrogate (c : char) : bool :=
  (55296 <=? c)%N && (c <=? 57343)%N.

(** [sys.stdout] is a text stream that encodes what is written to it as
    UTF-8 with the [strict] error handler: every code point has an encoding
    but the surrogates. *)
Definition encodable (s : str) : bool :=
  forallb (fun c => negb (surrogate c)) s.

(** [print] writes each of its arguments to [sys.stdout]; the write of a
    text the stream cannot encode raises [UnicodeEncodeError].  The message
    of a [JSONDecodeError] holds no surrogate (fixed ASCII text and
    positions; where a character of the input is quoted, its [repr], which
    escapes a surrogate), so of a [PrintError] only the text before it
    matters. *)
Definition print (p : printed) : outcome unit :=
  match p with
  | PrintStr args =>
      if forallb encodable args then Return tt else Raise UnicodeEncodeError
  | PrintError text =>
      if encodable text then Return tt else Raise UnicodeEncodeError
  end.

(** The [print] calls of a run, one after the other. *)
Fixpoint print_each (out : list printed) : outcome unit :=
  match out with
  | [] => Return tt
  | p :: out' => bind (print p) (fun _ => print_each out')
  end.

(** A call of one of the extractors as its caller sees it.  Every [except]
    clause of the two functions names [json.JSONDecodeError], which
    [UnicodeEncodeError] is not: what a [print] raises leaves the function.
    The call raises at the first [print] that does, and returns its value
    when none does. *)
Definition as_called (run : extraction * list printed) : outcome extraction :=
  bind (print_each (snd run)) (fun _ => Return (fst run)).

(** The text an extractor prints of its input: the fragments joined; a
    [dict] is returned before anything is printed. *)
Definition text_of (lst : llm_output) : str :=
  match lst with
  | Structured _ => []
  | Fragments lst => join lst
  end.

(* ================================================================== *)
(** * Vocabulary of the statements *)
(* ================================================================== *)

(** An ASCII literal in which each apostrophe stands for a double quote:
    the JSON texts of the examples are written with it. *)
Definition jlit (s : string) : str :=
  List.map (fun c => if N.eqb c 39 then Json.quote else c) (lit s).

Fixpoint distinct (l : list str) : bool :=
  match l with
  | [] => true
  | k :: l' => negb (existsb (PyStr.eqb k) l') && distinct l'
  end.

(** The invariant of Python's [dict]: a key occurs once, here and in every
    value within. *)
Fixpoint wf_value (v : value) : bool :=
  match v with
  | VList l => forallb wf_value l
  | VDict d =>
      distinct (PyDict.keys d) && forallb (fun kv => wf_value (snd kv)) d
  | _ => true
  end.

(** The same for the items of a dict. *)
Definition wf_entries (d : dict) : bool :=
  distinct (PyDict.keys d) && forallb (fun kv => wf_value (snd kv)) d.

(** [v] is a NaN. *)
Definition is_nan_value (v : value) : bool :=
  match v with
  | VFloat f => PyFloat.is_nan f
  | _ => false
  end.

(** The arguments of [items] that the schema does not know, in the order
    of iteration. *)
Definition unknown_arguments (valid_params : list (str * property))
    (items : dict) : list str :=
  List.filter (fun k => negb (PyDict.mem k valid_params)) (PyDict.keys items).

(** The declared type of the first argument of [items] that the schema
    knows with a type outside [type_map]. *)
Fixpoint first_unsupported (valid_params : list (str * property))
    (items : dict) : option str :=
  match items with
  | [] => None
  | (param, _) :: items' =>
      match PyDict.get param valid_params with
      | Some p =>
          if PyDict.mem (type p) type_map
          then first_unsupported valid_params items'
          else Some (type p)
      | None => first_unsupported valid_params items'
      end
  end.

(** [PyObject_RichCompareBool(x, y, Py_EQ)]: identity, else [==]. *)
Definition item_eq (x y : value) : bool := same_object x y || py_eq x y.

Fixpoint items_eq (l m : list value) : bool :=
  match l, m with
  | [], [] => true
  | x :: l', y :: m' => item_eq x y && items_eq l' m'
  | _, _ => false
  end.

Fixpoint entries_eq (d e : dict) : bool :=
  match d with
  | [] => true
  | (k, x) :: d' =>
      match PyDict.get k e with
      | Some y => item_eq x y && entries_eq d' e
      | None => false
      end
  end.

(** The entries the value loop collects when a dict [d] is compared with
    itself over [keys]: one for each key whose value is not [==] to itself. *)
Definition self_mismatches (d : dict) (keys : list str) : list (str * value * value) :=
  flat_map (fun k => match PyDict.get k d with
                     | Some v => if py_ne v v then [(k, v, v)] else []
                     | None => []
                     end) keys.

(** The verdicts of failure of [evaluate_function_call] that the statements
    name. *)
Definition unsupported (expected_type : str) : verdict :=
  (false, [Text (lit "Unsupported parameter type: "); Field (ShowStr expected_type)]).

Definition invalid_parameters (invalid_params : list str) : verdict :=
  (false, [Text (lit "Invalid parameters provided: ");
           Field (ShowStrList invalid_params)]).

(** The verdicts of success. *)
Definition call_is_valid : verdict :=
  (true, [Text (lit "Function call is valid.")]).

Definition calls_match : verdict :=
  (true, [Text (lit "Function calls match.")]).

(* ================================================================== *)
(** * [evaluate_function_call_from_toolbox] *)
(* ================================================================== *)

(** [toolbox] is an object of another file; of it the function uses the
    method [get_one_tool_by_one_name] alone, which is taken as a parameter:
    it answers a tool definition, or [None]. *)
Definition evaluate_function_call_from_toolbox
    (get_one_tool_by_one_name : str -> option tool_definition)
    (fc : function_call) : verdict :=
  let tool_name := name fc in
  match get_one_tool_by_one_name tool_name with
  | None => (false, [Text (lit "Tool not found.")])
  | Some this_tool_dec => evaluate_function_call this_tool_dec fc
  end.

(* ================================================================== *)
(** * Vocabulary of the further properties *)
(* ================================================================== *)

(** The entries of the list of type mismatches, for a schema that declares
    supported types only: one for each argument the schema knows whose
    value is not an instance of the class of its declared type. *)
Definition expected_mismatches (valid_params : list (str * property))
    (items : dict) : list (str * str * str) :=
  flat_map
    (fun kv =>
       match PyDict.get (fst kv) valid_params with
       | Some p =>
           match PyDict.get (type p) type_map with
           | Some cls =>
               if isinstance (snd kv) cls then []
               else [(fst kv, type p, type_name (type_of (snd kv)))]
           | None => []
           end
       | None => []
       end) items.

Definition name_mismatch : verdict :=
  (false, [Text (lit "Function name does not match.")]).

Definition missing_required (missing : list str) : verdict :=
  (false, [Text (lit "Missing required parameters: "); Field (ShowStrList missing)]).

Definition type_mismatch (mismatches : list (str * str * str)) : verdict :=
  (false, [Text (lit "Type mismatches: "); Field (ShowTypeMismatches mismatches)]).

Definition tool_not_found : verdict :=
  (false, [Text (lit "Tool not found.")]).

(** The entries the value loop collects over [keys] when it raises
    nothing: one for each key whose two values are not [==]. *)
Definition value_mismatches (pred_arguments gt_arguments : dict)
    (keys : list str) : list (str * value * value) :=
  flat_map
    (fun key =>
       match PyDict.get key pred_arguments, PyDict.get key gt_arguments with
       | Some p, Some g => if py_ne p g then [(key, p, g)] else []
       | _, _ => []
       end) keys.

(** The first of [keys] that is not a key of [gt_arguments]. *)
Definition first_missing_key (gt_arguments : dict) (keys : list str) : option str :=
  List.find (fun key => negb (PyDict.mem key gt_arguments)) keys.

Definition names_differ : verdict :=
  (false, [Text (lit "Function names do not match.")]).

Definition keys_differ (pred_arguments gt_arguments : dict) : verdict :=
  (false,
   [Text (lit "Argument keys do not match. Missing in predicted: ");
    Field (ShowStrSet (keys_minus gt_arguments pred_arguments));
    Text (lit ", Missing in ground truth: ");
    Field (ShowStrSet (keys_minus pred_arguments gt_arguments))]).

Definition values_differ (mismatched_values : list (str * value * value)) : verdict :=
  (false, [Text (lit "Argument values do not match: ");
           Field (ShowValueMismatches mismatched_values)]).

(** The characters a JSON value can end with: a quote, a closing brace or
    bracket, a digit, and the last letters of [null], [true], [false],
    [NaN] and [Infinity]. *)
Definition closer (c : char) : bool :=
  N.eqb c Json.quote || Json.is_char "}" c || Json.is_char "]" c
  || ((48 <=? c)%N && (c <=? 57)%N)
  || Json.is_char "l" c || Json.is_char "e" c
  || Json.is_char "N" c || Json.is_char "y" c.

(** [r] is what is left of [s] after a part that ends with a [closer]. *)
Definition ends_closer (s r : str) : Prop :=
  exists pre c, s = pre ++ c :: r /\ closer c = true.

(** The character [<]. *)
Definition LT : char := 60%N.

(** Two lists of arguments with the same keys in the same order and, under
    each key, values of the same class. *)
Definition same_classes (args args' : dict) : Prop :=
  Forall2 (fun a b => fst a = fst b /\ type_of (snd a) = type_of (snd b)) args args'.

(* ================================================================== *)
(** * Facts about strings *)
(* ================================================================== *)

Section StrFacts.

Lemma str_eqb_eq (s t : str) : PyStr.eqb s t = true <-> s = t.
Proof.
  revert t; induction s as [|c s IH]; intros [|d t]; simpl;
    try (split; [discriminate | congruence]); try tauto.
  rewrite andb_true_iff, N.eqb_eq, IH.
  split; [intros [-> ->]; reflexivity | intros [= -> ->]; auto].
Qed.

Lemma str_eqb_refl (s : str) : PyStr.eqb s s = true.
Proof. apply str_eqb_eq; reflexivity. Qed.

Lemma str_eqb_neq (s t : str) : PyStr.eqb s t = false <-> s <> t.
Proof.
  rewrite <- str_eqb_eq. destruct (PyStr.eqb s t); split; congruence.
Qed.

Lemma startswith_iff (p s : str) :
  startswith p s = true <-> exists r, s = p ++ r.
Proof.
  revert s; induction p as [|c p IH]; intros s; simpl.
  - split; [intros _; exists s; reflexivity | reflexivity].
  - destruct s as [|d s].
    + split; [discriminate | intros [r Hr]; discriminate].
    + rewrite andb_true_iff, N.eqb_eq, IH. split.
      * intros [-> [r ->]]. exists r; reflexivity.
      * intros [r [= -> ->]]. split; [reflexivity | exists r; reflexivity].
Qed.

Variable sub : str.

Lemma find_from_hit (s : str) (i : Z) :
  startswith sub s = true -> find_from sub s i = i.
Proof. intros H. destruct s; simpl; rewrite H; reflexivity. Qed.

(** The index [find_from] answers, when it answers one, lies between the
    index it started from and the end of the text. *)
Lemma find_from_range (s : str) (i : Z) :
  find_from sub s i = -1 \/ i <= find_from sub s i <= i + len s.
Proof.
  revert i; induction s as [|c s IH]; intros i; simpl.
  - destruct (startswith sub []); [right; unfold len; simpl; lia | left; reflexivity].
  - destruct (startswith sub (c :: s)).
    + right. unfold len; cbn [List.length]. lia.
    + destruct (IH (i + 1)) as [H | H]; [left; exact H | right].
      unfold len in *; cbn [List.length]. lia.
Qed.

Lemma find_from_shift (s : str) (i : Z) :
  0 <= i ->
  (find_from sub s 0 = -1 -> find_from sub s i = -1)
  /\ (find_from sub s 0 <> -1 -> find_from sub s i = find_from sub s 0 + i).
Proof.
  revert i; induction s as [|c s IH]; intros i Hi; simpl.
  - destruct (startswith sub []); split; intros; try lia; congruence.
  - destruct (startswith sub (c :: s)).
    + split; intros; try lia; congruence.
    + destruct (IH 1 ltac:(lia)) as [A1 B1].
      destruct (IH (i + 1) ltac:(lia)) as [A2 B2].
      destruct (Z.eq_dec (find_from sub s 0) (-1)) as [E | E].
      * split; intros; [apply A2; exact E | rewrite A1 in *; congruence].
      * split; intros H.
        -- rewrite B1 in H by exact E.
           pose proof (find_from_range s 0) as R. lia.
        -- rewrite B2, B1 by exact E. lia.
Qed.

Lemma find_range (s : str) :
  find sub s = -1 \/ 0 <= find sub s <= len s.
Proof. apply (find_from_range s 0). Qed.

(** Where [find] answers an index, the text splits there around [sub]. *)
Lemma find_found (s : str) :
  find sub s <> -1 ->
  s = firstn (Z.to_nat (find sub s)) s ++ sub
        ++ skipn (Z.to_nat (find sub s + len sub)) s.
Proof.
  unfold find. induction s as [|c s IH]; simpl.
  - destruct (startswith sub []) eqn:E; [| congruence].
    intros _. apply startswith_iff in E as [r Hr].
    destruct sub; [reflexivity | discriminate].
  - destruct (startswith sub (c :: s)) eqn:E.
    + intros _. apply startswith_iff in E as [r Hr].
      simpl. rewrite Hr at 1. f_equal.
      unfold len. rewrite Nat2Z.id, Hr.
      rewrite skipn_app, skipn_all, Nat.sub_diag. reflexivity.
    + intros H.
      destruct (find_from_shift s 1 ltac:(lia)) as [A B].
      destruct (Z.eq_dec (find_from sub s 0) (-1)) as [E0 | E0];
        [rewrite A in H by exact E0; congruence |].
      rewrite B by exact E0.
      pose proof (find_from_range s 0) as [R | R]; [congruence |].
      replace (Z.to_nat (find_from sub s 0 + 1))
        with (S (Z.to_nat (find_from sub s 0))) by lia.
      replace (Z.to_nat (find_from sub s 0 + 1 + len sub))
        with (S (Z.to_nat (find_from sub s 0 + len sub)))
        by (unfold len; lia).
      simpl. f_equal. apply IH. exact E0.
Qed.

Lemma find_occurs (s : str) : find sub s <> -1 -> occurs sub s.
Proof. intros H. eexists _, _. apply find_found. exact H. Qed.

(** [find] misses no occurrence. *)
Lemma occurs_find (s : str) : occurs sub s -> find sub s <> -1.
Proof.
  intros [pre [post ->]]. unfold find.
  induction pre as [|c pre IH]; simpl.
  - rewrite find_from_hit; [lia |].
    apply startswith_iff; eexists; reflexivity.
  - destruct (startswith sub (c :: pre ++ sub ++ post)); [lia |].
    destruct (find_from_shift (pre ++ sub ++ post) 1 ltac:(lia)) as [_ B].
    rewrite B by exact IH.
    pose proof (find_from_range (pre ++ sub ++ post) 0) as [R | R];
      [congruence | lia].
Qed.

(** [find] answers [-1] exactly when [sub] occurs nowhere. *)
Lemma find_absent_iff (s : str) : find sub s = -1 <-> ~ occurs sub s.
Proof.
  split.
  - intros H O. apply occurs_find in O. congruence.
  - intros H. destruct (Z.eq_dec (find sub s) (-1)) as [E | E]; [exact E |].
    exfalso. apply H, find_occurs, E.
Qed.

End StrFacts.

Section SliceFacts.

Variable s : str.

(** [s[i:]] for an index within the text. *)
Lemma slice_from (i : Z) :
  0 <= i -> slice s (Some i) None = skipn (Z.to_nat i) s.
Proof.
  intros Hi. unfold slice, adjust.
  destruct (i <? 0) eqn:E; [apply Z.ltb_lt in E; lia |].
  destruct (Z.le_gt_cases i (len s)) as [L | L].
  - rewrite Z.min_l by exact L.
    apply firstn_all2. rewrite length_skipn. unfold len in *. lia.
  - rewrite Z.min_r by lia. rewrite Z.sub_diag. simpl.
    rewrite skipn_all2; [reflexivity | unfold len in *; lia].
Qed.

(** [s[:j]] for an index within the text. *)
Lemma slice_to (j : Z) :
  0 <= j -> slice s None (Some j) = firstn (Z.to_nat j) s.
Proof.
  intros Hj. unfold slice, adjust.
  destruct (j <? 0) eqn:E; [apply Z.ltb_lt in E; lia |].
  simpl skipn. rewrite Z.sub_0_r.
  destruct (Z.le_gt_cases j (len s)) as [L | L].
  - rewrite Z.min_l by exact L. reflexivity.
  - rewrite Z.min_r by lia.
    rewrite !firstn_all2; unfold len in *; try lia. reflexivity.
Qed.

End SliceFacts.

(* ================================================================== *)
(** * The decoder never runs out of fuel *)
(* ================================================================== *)

Section JsonFacts.

Import Json.

Local Abbreviation size := (@List.length char).

Lemma skip_ws_size (s : str) : (size (skip_ws s) <= size s)%nat.
Proof.
  induction s as [| c s IH]; simpl; [lia |].
  destruct (is_ws c); simpl; lia.
Qed.

Lemma skip_ws_cons (s r : str) (c : char) :
  skip_ws s = c :: r -> (size r < size s)%nat.
Proof.
  intros H. pose proof (skip_ws_size s) as L. rewrite H in L. simpl in L. lia.
Qed.

Lemma scanstring_size (s : str) :
  forall acc x r, scanstring s acc = Some (x, r) -> (size r < size s)%nat.
Proof.
  induction s as [s IH] using (well_founded_induction
                                 (Wf_nat.well_founded_ltof _ size)).
  unfold Wf_nat.ltof in IH.
  intros acc x r H. destruct s as [| c t]; [discriminate |].
  cbn [scanstring] in H.
  repeat match type of H with
         | context [if ?b then _ else _] => destruct b
         | context [match ?t with [] => _ | _ :: _ => _ end] => destruct t
         | context [match ?o with Some _ => _ | None => _ end] => destruct o
         | None = Some _ => discriminate
         | Some _ = Some _ => injection H as <- <-; simpl; lia
         | scanstring ?u _ = Some _ =>
             apply IH in H; [simpl in *; lia | simpl; lia]
         end.
Qed.

Lemma span_digits_size (s : str) :
  (size (snd (span_digits s)) <= size s)%nat.
Proof.
  induction s as [| c s IH]; simpl; [lia |].
  destruct (digit c); [| simpl; lia].
  destruct (span_digits s); simpl in *; lia.
Qed.

Lemma scan_integer_size (s r : str) (ds : list Z) :
  scan_integer s = Some (ds, r) -> (size r < size s)%nat.
Proof.
  unfold scan_integer. destruct s as [| c s]; [discriminate |].
  destruct (digit c) as [d |]; [| discriminate].
  pose proof (span_digits_size s) as L.
  destruct (span_digits s) as [ds' r'].
  destruct d; intros [= <- <-]; simpl in *; lia.
Qed.

Lemma scan_frac_size (s : str) : (size (snd (scan_frac s)) <= size s)%nat.
Proof.
  unfold scan_frac. destruct s as [| c s]; [simpl; lia |].
  destruct (is_char "." c); [| simpl; lia].
  pose proof (span_digits_size s) as L.
  destruct (span_digits s) as [[| d ds] r]; simpl in *; lia.
Qed.

Lemma scan_exp_size (s : str) : (size (snd (scan_exp s)) <= size s)%nat.
Proof.
  unfold scan_exp. destruct s as [| c s]; [simpl; lia |].
  destruct (is_char "e" c || is_char "E" c); [| simpl; lia].
  destruct s as [| g s].
  - simpl. lia.
  - pose proof (span_digits_size s) as L1.
    pose proof (span_digits_size (g :: s)) as L2.
    destruct (is_char "-" g); [| destruct (is_char "+" g)].
    + destruct (span_digits s) as [[| d ds] r]; simpl in *; lia.
    + destruct (span_digits s) as [[| d ds] r]; simpl in *; lia.
    + destruct (span_digits (g :: s)) as [[| d ds] r]; simpl in *; lia.
Qed.

Lemma scan_number_size (s r : str) (v : value) :
  scan_number s = Some (v, r) -> (size r < size s)%nat.
Proof.
  unfold scan_number.
  assert (forall s0 : str, (size s0 <= size s)%nat ->
            match scan_integer s0 with
            | Some (ds, r1) =>
                (size (snd (scan_exp (snd (scan_frac r1)))) < size s)%nat
            | None => True
            end) as A.
  { intros s0 L. destruct (scan_integer s0) as [[ds r1] |] eqn:E; [| exact I].
    apply scan_integer_size in E.
    pose proof (scan_frac_size r1). pose proof (scan_exp_size (snd (scan_frac r1))).
    lia. }
  destruct s as [| c s']; [discriminate |].
  destruct (is_char "-" c).
  - specialize (A s' ltac:(simpl; lia)).
    destruct (scan_integer s') as [[ds r1] |]; [| discriminate].
    destruct (scan_frac r1) as [frac r2]. cbn [snd] in A.
    destruct (scan_exp r2) as [exp r3]. cbn [snd] in A.
    destruct frac, exp; intros [= <- <-]; exact A.
  - specialize (A (c :: s') ltac:(lia)).
    destruct (scan_integer (c :: s')) as [[ds r1] |]; [| discriminate].
    destruct (scan_frac r1) as [frac r2]. cbn [snd] in A.
    destruct (scan_exp r2) as [exp r3]. cbn [snd] in A.
    destruct frac, exp; intros [= <- <-]; exact A.
Qed.

Lemma skipn_size (n : nat) (s : str) :
  (0 < n)%nat -> s <> [] -> (size (skipn n s) < size s)%nat.
Proof.
  intros Hn Hs. rewrite length_skipn.
  destruct s; [contradiction | cbn [List.length]; lia].
Qed.

Lemma scan_constant_size (s r : str) (v : value) :
  scan_constant s = Some (v, r) -> (size r < size s)%nat.
Proof.
  intros H.
  assert (s <> []) as N by (destruct s; [discriminate H | discriminate]).
  unfold scan_constant in H.
  assert (exists n, (0 < n)%nat /\ r = skipn n s) as (n & Hn & ->).
  { destruct (startswith (lit "NaN") s);
      [exists 3%nat; split; [lia | congruence] |].
    destruct (startswith (lit "Infinity") s);
      [exists 8%nat; split; [lia | congruence] |].
    destruct (startswith (lit "-Infinity") s);
      [exists 9%nat; split; [lia | congruence] | discriminate]. }
  apply skipn_size; assumption.
Qed.

Lemma Parsed_rest {A : Type} (a b : A) (r r' : str) :
  Parsed a r = Parsed b r' -> r = r'.
Proof. congruence. Qed.

(** Breaks the outermost case analysis met in [H]. *)
Ltac break_in H :=
  match type of H with
  | context [if ?b then _ else _] => destruct b eqn:?
  | context [match ?x with Some _ => _ | None => _ end] => destruct x eqn:?
  | context [match ?x with [] => _ | _ :: _ => _ end] => destruct x eqn:?
  | context [match ?x with Parsed _ _ => _ | Invalid => _ | Exhausted => _ end] =>
      destruct x eqn:?
  | context [let '(_, _) := ?x in _] => destruct x eqn:?
  end.

(** Turns what is known of the scanners into facts on sizes. *)
Ltac size_facts :=
  repeat match goal with
         | E : skip_ws _ = _ :: _ |- _ => apply skip_ws_cons in E
         | E : scanstring _ _ = Some _ |- _ => apply scanstring_size in E
         | E : scan_number _ = Some _ |- _ => apply scan_number_size in E
         | E : scan_constant _ = Some _ |- _ => apply scan_constant_size in E
         end.

Ltac ws_fact x :=
  lazymatch goal with
  | _ : (size (skip_ws x) <= size x)%nat |- _ => fail
  | _ => pose proof (skip_ws_size x)
  end.

Ltac ws_facts :=
  repeat match goal with
         | H : context [size (skip_ws ?x)] |- _ => ws_fact x
         | |- context [size (skip_ws ?x)] => ws_fact x
         end.

(** A value that is decoded takes at least one character. *)
Lemma scan_once_size (fuel : nat) :
  (forall s v r, scan_once fuel s = Parsed v r -> (size r < size s)%nat)
  /\ (forall s acc v r, elements fuel s acc = Parsed v r -> (size r < size s)%nat)
  /\ (forall s acc v r, members fuel s acc = Parsed v r -> (size r < size s)%nat).
Proof.
  induction fuel as [| fuel (IH1 & IH2 & IH3)];
    [repeat split; intros; discriminate |].
  split; [| split].
  - intros s v r H. destruct s as [| c t]; [discriminate |].
    cbn [scan_once] in H.
    repeat break_in H; try discriminate;
      try (apply IH2 in H); try (apply IH3 in H);
      try (apply Parsed_rest in H; subst r);
      size_facts; try (apply skipn_size; [lia | discriminate]);
      cbn [List.length] in *; lia.
  - intros s acc v r H. cbn [elements] in H.
    repeat break_in H; try discriminate;
      try (apply IH2 in H);
      try (apply Parsed_rest in H; subst r);
      match goal with E : scan_once _ _ = Parsed _ _ |- _ => apply IH1 in E end;
      size_facts; ws_facts; cbn [List.length] in *; lia.
  - intros s acc v r H. cbn [members] in H.
    repeat break_in H; try discriminate;
      try (apply IH3 in H);
      try (apply Parsed_rest in H; subst r);
      match goal with E : scan_once _ _ = Parsed _ _ |- _ => apply IH1 in E end;
      size_facts; ws_facts; cbn [List.length] in *; lia.
Qed.

(** Fuel above twice the size of the text is never used up. *)
Lemma scan_once_fuel (fuel : nat) :
  (forall s, (2 * size s < fuel)%nat -> scan_once fuel s <> Exhausted)
  /\ (forall s acc, (2 * size s + 1 < fuel)%nat -> elements fuel s acc <> Exhausted)
  /\ (forall s acc, (2 * size s + 1 < fuel)%nat -> members fuel s acc <> Exhausted).
Proof.
  induction fuel as [| fuel (IH1 & IH2 & IH3)];
    [repeat split; intros; lia |].
  pose proof (scan_once_size fuel) as (S1 & _ & _).
  split; [| split].
  - intros s L H. destruct s as [| c t]; [discriminate |].
    cbn [scan_once] in H.
    repeat break_in H; try discriminate;
      [ revert H; apply IH3 | revert H; apply IH2 ];
      size_facts; cbn [List.length] in *; lia.
  - intros s acc L H. cbn [elements] in H.
    repeat break_in H; try discriminate;
      repeat match goal with
             | E : scan_once _ _ = Parsed _ _ |- _ => apply S1 in E
             | E : scan_once _ _ = Exhausted |- _ => revert E; apply IH1
             end;
      try (revert H; apply IH2);
      size_facts; ws_facts; cbn [List.length] in *; lia.
  - intros s acc L H. cbn [members] in H.
    repeat break_in H; try discriminate;
      repeat match goal with
             | E : scan_once _ _ = Parsed _ _ |- _ => apply S1 in E
             | E : scan_once _ _ = Exhausted |- _ => revert E; apply IH1
             end;
      try (revert H; apply IH3);
      size_facts; ws_facts; cbn [List.length] in *; lia.
Qed.

(** [json.loads] always has fuel enough: its answer [None] is the
    decoder's [JSONDecodeError], never a shortage of fuel. *)
Theorem loads_fuel_suffices (s : str) :
  scan_once (fuel_for s) (skip_ws s) <> Exhausted.
Proof.
  apply scan_once_fuel. pose proof (skip_ws_size s). unfold fuel_for. lia.
Qed.

(** ** What is decoded is well formed *)

Lemma dict_mem_existsb {A : Type} (k : str) (d : list (str * A)) :
  PyDict.mem k d = existsb (PyStr.eqb k) (PyDict.keys d).
Proof.
  unfold PyDict.mem. induction d as [| [k0 v0] d IH]; [reflexivity |].
  simpl. destruct (PyStr.eqb k k0); [reflexivity | exact IH].
Qed.

Lemma dict_keys_set {A : Type} (k : str) (v : A) (d : list (str * A)) :
  PyDict.keys (PyDict.set k v d)
  = if PyDict.mem k d then PyDict.keys d else PyDict.keys d ++ [k].
Proof.
  unfold PyDict.mem. induction d as [| [k0 v0] d IH]; [reflexivity |].
  simpl. destruct (PyStr.eqb k k0); [reflexivity |].
  simpl. rewrite IH. destruct (PyDict.get k d); reflexivity.
Qed.

Lemma str_eqb_sym (s t : str) : PyStr.eqb s t = PyStr.eqb t s.
Proof.
  destruct (PyStr.eqb s t) eqn:E.
  - apply str_eqb_eq in E. subst. symmetry. apply str_eqb_refl.
  - symmetry. apply str_eqb_neq. apply str_eqb_neq in E. congruence.
Qed.

Lemma distinct_snoc (l : list str) (k : str) :
  distinct l = true -> existsb (PyStr.eqb k) l = false ->
  distinct (l ++ [k]) = true.
Proof.
  induction l as [| k0 l IH]; [reflexivity |].
  cbn [distinct existsb app].
  rewrite andb_true_iff, negb_true_iff, orb_false_iff.
  intros [N D] [E X]. rewrite IH by assumption.
  rewrite existsb_app, N. cbn [existsb]. rewrite str_eqb_sym, E. reflexivity.
Qed.

Lemma dict_set_wf (k : str) (v : value) (d : dict) :
  wf_value v = true -> wf_entries d = true ->
  wf_entries (PyDict.set k v d) = true.
Proof.
  unfold wf_entries. rewrite !andb_true_iff. intros Wv [D V]. split.
  - rewrite dict_keys_set, dict_mem_existsb.
    destruct (existsb (PyStr.eqb k) (PyDict.keys d)) eqn:E;
      [exact D | apply distinct_snoc; assumption].
  - clear D. induction d as [| [k0 v0] d IH]; simpl.
    + rewrite Wv. reflexivity.
    + simpl in V. apply andb_true_iff in V as [V0 V].
      destruct (PyStr.eqb k k0); simpl.
      * rewrite Wv, V. reflexivity.
      * rewrite V0, IH by exact V. reflexivity.
Qed.

Lemma of_pairs_wf (pairs : dict) :
  forallb (fun kv => wf_value (snd kv)) pairs = true ->
  wf_value (VDict (PyDict.of_pairs pairs)) = true.
Proof.
  unfold PyDict.of_pairs. change (wf_value (VDict ?d)) with (wf_entries d).
  assert (forall d, wf_entries d = true ->
            forallb (fun kv => wf_value (snd kv)) pairs = true ->
            wf_entries (fold_left (fun d kv => PyDict.set (fst kv) (snd kv) d)
                          pairs d) = true) as A.
  { induction pairs as [| [k v] pairs IH]; intros d W H; [exact W |].
    simpl in H. apply andb_true_iff in H as [Hv H].
    simpl. apply IH; [apply dict_set_wf; assumption | exact H]. }
  apply A. reflexivity.
Qed.

Lemma forallb_rev {A : Type} (f : A -> bool) (l : list A) :
  forallb f l = true -> forallb f (rev l) = true.
Proof.
  rewrite !forallb_forall. intros H x I. apply H, in_rev, I.
Qed.

Lemma scan_number_wf (s r : str) (v : value) :
  Json.scan_number s = Some (v, r) -> wf_value v = true.
Proof.
  unfold Json.scan_number. intros H.
  repeat break_in H; try discriminate; injection H as <- _; reflexivity.
Qed.

Lemma scan_constant_wf (s r : str) (v : value) :
  Json.scan_constant s = Some (v, r) -> wf_value v = true.
Proof.
  unfold Json.scan_constant. intros H.
  repeat break_in H; try discriminate; injection H as <- _; reflexivity.
Qed.

Lemma Parsed_value {A : Type} (a b : A) (r r' : str) :
  Json.Parsed a r = Json.Parsed b r' -> a = b.
Proof. congruence. Qed.

Lemma scan_once_wf (fuel : nat) :
  (forall s v r, Json.scan_once fuel s = Json.Parsed v r -> wf_value v = true)
  /\ (forall s acc v r,
        forallb wf_value acc = true ->
        Json.elements fuel s acc = Json.Parsed v r -> wf_value v = true)
  /\ (forall s acc v r,
        forallb (fun kv => wf_value (snd kv)) acc = true ->
        Json.members fuel s acc = Json.Parsed v r -> wf_value v = true).
Proof.
  induction fuel as [| fuel (IH1 & IH2 & IH3)];
    [repeat split; intros; discriminate |].
  split; [| split].
  - intros s v r H. destruct s as [| c t]; [discriminate |].
    cbn [Json.scan_once] in H.
    repeat break_in H; try discriminate;
      try (apply IH2 in H; [exact H | reflexivity]);
      try (apply IH3 in H; [exact H | reflexivity]);
      try (apply Parsed_value in H; subst v);
      try reflexivity;
      [eapply scan_number_wf | eapply scan_constant_wf]; eassumption.
  - intros s acc v r W H. cbn [Json.elements] in H.
    repeat break_in H; try discriminate;
      match goal with
      | E : Json.scan_once _ _ = Json.Parsed _ _ |- _ => apply IH1 in E
      end.
    + apply Parsed_value in H; subst v.
      cbn [wf_value]. apply forallb_rev. simpl. rewrite W, andb_true_r. assumption.
    + apply IH2 in H; [exact H |]. simpl. rewrite W, andb_true_r. assumption.
  - intros s acc v r W H. cbn [Json.members] in H.
    repeat break_in H; try discriminate;
      match goal with
      | E : Json.scan_once _ _ = Json.Parsed _ _ |- _ => apply IH1 in E
      end.
    + apply Parsed_value in H; subst v.
      apply of_pairs_wf, forallb_rev. simpl. rewrite W, andb_true_r. assumption.
    + apply IH3 in H; [exact H |]. simpl. rewrite W, andb_true_r. assumption.
Qed.

(** Every value [json.loads] answers is a well-formed Python object. *)
Theorem loads_wf (s : str) (v : value) :
  Json.loads s = Some v -> wf_value v = true.
Proof.
  unfold Json.loads. intros H.
  destruct (Json.scan_once (Json.fuel_for s) (Json.skip_ws s)) as [a r | |] eqn:E;
    try discriminate.
  destruct (Json.skip_ws r); [| discriminate].
  injection H as <-. apply (proj1 (scan_once_wf _)) in E. exact E.
Qed.

(** ** What is decoded ends with a closer *)

Lemma skip_ws_suffix (s : str) : exists w, s = w ++ skip_ws s.
Proof.
  induction s as [| c s [w IH]]; [exists []; reflexivity |]. cbn [skip_ws].
  destruct (is_ws c); [| exists []; reflexivity].
  exists (c :: w). cbn. rewrite <- IH. reflexivity.
Qed.

Lemma ends_closer_prefix (s r : str) : ends_closer s r -> exists p, s = p ++ r.
Proof. intros (pre & c & -> & _). exists (pre ++ [c]). rewrite <- app_assoc. reflexivity. Qed.

Lemma ends_closer_app (p s r : str) : ends_closer s r -> ends_closer (p ++ s) r.
Proof.
  intros (pre & c & -> & C). exists (p ++ pre), c.
  rewrite <- app_assoc. auto.
Qed.

Lemma ends_closer_here (pre r : str) (c : char) :
  closer c = true -> ends_closer (pre ++ c :: r) r.
Proof. intros C. exists pre, c. auto. Qed.

Lemma scanstring_closer (s : str) :
  forall acc x r, scanstring s acc = Some (x, r) -> ends_closer s r.
Proof.
  induction s as [s IH] using (well_founded_induction
                                 (Wf_nat.well_founded_ltof _ size)).
  unfold Wf_nat.ltof in IH.
  intros acc x r H. destruct s as [| c t]; [discriminate |].
  cbn [scanstring] in H.
  repeat match type of H with
         | context [if N.eqb ?a quote then _ else _] => destruct (N.eqb a quote) eqn:Q
         | context [if ?b then _ else _] => destruct b
         | context [match ?t with [] => _ | _ :: _ => _ end] => destruct t
         | context [match ?o with Some _ => _ | None => _ end] => destruct o
         | None = Some _ => discriminate
         | Some _ = Some _ =>
             injection H as <- <-; apply N.eqb_eq in Q; subst;
             apply (ends_closer_here []); reflexivity
         | scanstring ?u _ = Some _ =>
             apply IH in H; [| simpl; lia];
             let rec go :=
               first [ exact H
                     | match goal with
                       | |- ends_closer (?a :: ?l) _ =>
                           change (a :: l) with ([a] ++ l);
                           apply ends_closer_app; go
                       end ] in go
         end.
Qed.

Lemma digit_closer (c : char) (d : Z) : digit c = Some d -> closer c = true.
Proof.
  unfold digit, closer. destruct ((48 <=? c)%N && (c <=? 57)%N); [| discriminate].
  intros _. rewrite !orb_true_r. reflexivity.
Qed.

Lemma span_digits_closer (s : str) :
  (fst (span_digits s) = [] /\ snd (span_digits s) = s)
  \/ ends_closer s (snd (span_digits s)).
Proof.
  induction s as [| c s IH]; [left; split; reflexivity |]. cbn [span_digits].
  destruct (digit c) as [d |] eqn:D; [| left; split; reflexivity].
  right. destruct (span_digits s) as [ds r]. cbn [fst snd] in *.
  destruct IH as [[_ ->] | IH].
  - apply (ends_closer_here []). apply (digit_closer _ _ D).
  - apply (ends_closer_app [c]), IH.
Qed.

Lemma scan_integer_closer (s r : str) (ds : list Z) :
  scan_integer s = Some (ds, r) -> ends_closer s r.
Proof.
  unfold scan_integer. destruct s as [| c s]; [discriminate |].
  destruct (digit c) as [d |] eqn:D; [| discriminate].
  pose proof (span_digits_closer s) as S.
  destruct (span_digits s) as [ds' r']. cbn [fst snd] in S.
  assert (ends_closer (c :: s) s) as Here
    by (apply (ends_closer_here []), (digit_closer _ _ D)).
  destruct d; intros [= <- <-]; try exact Here;
    (destruct S as [[_ ->] | S]; [exact Here | apply (ends_closer_app [c]), S]).
Qed.

Lemma scan_frac_closer (s : str) :
  snd (scan_frac s) = s \/ ends_closer s (snd (scan_frac s)).
Proof.
  unfold scan_frac. destruct s as [| c s]; [left; reflexivity |].
  destruct (is_char "." c); [| left; reflexivity].
  pose proof (span_digits_closer s) as S.
  destruct (span_digits s) as [[| d ds] r]; [left; reflexivity |].
  cbn [fst snd] in *. right.
  destruct S as [[E _] | S]; [discriminate | apply (ends_closer_app [c]), S].
Qed.

Lemma scan_exp_closer (s : str) :
  snd (scan_exp s) = s \/ ends_closer s (snd (scan_exp s)).
Proof.
  unfold scan_exp. destruct s as [| c s]; [left; reflexivity |].
  destruct (is_char "e" c || is_char "E" c); [| left; reflexivity].
  destruct s as [| g s]; [left; reflexivity |].
  pose proof (span_digits_closer s) as S1.
  pose proof (span_digits_closer (g :: s)) as S2.
  destruct (is_char "-" g); [| destruct (is_char "+" g)].
  - destruct (span_digits s) as [[| d ds] r]; [left; reflexivity |].
    cbn [fst snd] in *. right.
    destruct S1 as [[E _] | S1]; [discriminate | apply (ends_closer_app [c; g]), S1].
  - destruct (span_digits s) as [[| d ds] r]; [left; reflexivity |].
    cbn [fst snd] in *. right.
    destruct S1 as [[E _] | S1]; [discriminate | apply (ends_closer_app [c; g]), S1].
  - destruct (span_digits (g :: s)) as [[| d ds] r]; [left; reflexivity |].
    cbn [fst snd] in *. right.
    destruct S2 as [[E _] | S2]; [discriminate | apply (ends_closer_app [c]), S2].
Qed.

Lemma ends_closer_then (s t r : str) :
  ends_closer s t -> r = t \/ ends_closer t r -> ends_closer s r.
Proof.
  intros H [-> | T]; [exact H |].
  apply ends_closer_prefix in H as [p ->]. apply ends_closer_app, T.
Qed.

Lemma scan_number_closer (s r : str) (v : value) :
  scan_number s = Some (v, r) -> ends_closer s r.
Proof.
  unfold scan_number.
  assert (forall s0 : str,
            match scan_integer s0 with
            | Some (ds, r1) => ends_closer s0 (snd (scan_exp (snd (scan_frac r1))))
            | None => True
            end) as A.
  { intros s0. destruct (scan_integer s0) as [[ds r1] |] eqn:E; [| exact I].
    apply scan_integer_closer in E.
    apply (ends_closer_then _ _ _ (ends_closer_then _ _ _ E (scan_frac_closer r1))).
    apply scan_exp_closer. }
  destruct s as [| c s']; [discriminate |].
  destruct (is_char "-" c).
  - specialize (A s').
    destruct (scan_integer s') as [[ds r1] |]; [| discriminate].
    destruct (scan_frac r1) as [frac r2]. cbn [snd] in A.
    destruct (scan_exp r2) as [exp r3]. cbn [snd] in A.
    destruct frac, exp; intros [= <- <-]; apply (ends_closer_app [c]), A.
  - specialize (A (c :: s')).
    destruct (scan_integer (c :: s')) as [[ds r1] |]; [| discriminate].
    destruct (scan_frac r1) as [frac r2]. cbn [snd] in A.
    destruct (scan_exp r2) as [exp r3]. cbn [snd] in A.
    destruct frac, exp; intros [= <- <-]; exact A.
Qed.

Lemma startswith_skipn (p s : str) :
  startswith p s = true -> s = p ++ skipn (List.length p) s.
Proof.
  intros H. apply startswith_iff in H as [r ->].
  rewrite skipn_app, skipn_all, Nat.sub_diag. reflexivity.
Qed.

Lemma word_closer (w : string) (s : str) (n : nat) :
  startswith (lit w) s = true ->
  n = List.length (lit w) ->
  (exists pre c, lit w = pre ++ [c] /\ closer c = true) ->
  ends_closer s (skipn n s).
Proof.
  intros H -> (pre & c & E & C). apply startswith_skipn in H.
  rewrite H at 1. rewrite E, <- app_assoc. apply ends_closer_here, C.
Qed.

Lemma scan_constant_closer (s r : str) (v : value) :
  scan_constant s = Some (v, r) -> ends_closer s r.
Proof.
  unfold scan_constant. intros H.
  destruct (startswith (lit "NaN") s) eqn:E1.
  { assert (r = skipn 3 s) as -> by congruence.
    apply (word_closer "NaN" s 3 E1 eq_refl). exists (lit "Na"), 78%N. split; reflexivity. }
  destruct (startswith (lit "Infinity") s) eqn:E2.
  { assert (r = skipn 8 s) as -> by congruence.
    apply (word_closer "Infinity" s 8 E2 eq_refl).
    exists (lit "Infinit"), 121%N. split; reflexivity. }
  destruct (startswith (lit "-Infinity") s) eqn:E3; [| discriminate].
  assert (r = skipn 9 s) as -> by congruence.
  apply (word_closer "-Infinity" s 9 E3 eq_refl).
  exists (lit "-Infinit"), 121%N. split; reflexivity.
Qed.

(** Names each [skip_ws t] of the context and writes [t] as whitespace
    followed by it. *)
Ltac name_skip_ws :=
  repeat match goal with
         | H : context [skip_ws ?t] |- _ =>
             is_var t;
             let x := fresh "x" in
             let E := fresh "E" in
             let w := fresh "w" in
             let Ew := fresh "Ew" in
             remember (skip_ws t) as x eqn:E;
             destruct (skip_ws_suffix t) as [w Ew];
             rewrite <- E in Ew; clear E; subst t
         end.

(** Makes the tests on characters and the parts already decoded explicit. *)
Ltac explicit :=
  repeat match goal with
         | E : is_char _ ?c = true |- _ => apply N.eqb_eq in E; subst c
         | E : N.eqb ?c quote = true |- _ => apply N.eqb_eq in E; subst c
         | E : ?x = _ :: _ |- _ => is_var x; subst x
         | E : scanstring _ _ = Some _ |- _ => apply scanstring_closer in E
         | E : ends_closer ?s _ |- _ =>
             is_var s;
             let pre := fresh "pre" in
             let c := fresh "c" in
             let C := fresh "C" in
             destruct E as (pre & c & E & C); subst s
         end.

(** Closes [ends_closer s r] for an explicit [s]. *)
Ltac find_closer :=
  first [ eassumption
        | apply (ends_closer_here []); (assumption || reflexivity)
        | match goal with
          | |- ends_closer (?a :: ?l) _ =>
              change (a :: l) with ([a] ++ l); apply ends_closer_app; find_closer
          | |- ends_closer (?w ++ ?l) _ => apply ends_closer_app; find_closer
          end ].

Lemma scan_once_closer (fuel : nat) :
  (forall s v r, scan_once fuel s = Parsed v r -> ends_closer s r)
  /\ (forall s acc v r, elements fuel s acc = Parsed v r -> ends_closer s r)
  /\ (forall s acc v r, members fuel s acc = Parsed v r -> ends_closer s r).
Proof.
  induction fuel as [| fuel (IH1 & IH2 & IH3)];
    [repeat split; intros; discriminate |].
  split; [| split].
  - intros s v r H. destruct s as [| c t]; [discriminate |].
    cbn [scan_once] in H.
    repeat break_in H; try discriminate;
      try (apply IH2 in H); try (apply IH3 in H);
      try (apply Parsed_rest in H; subst r);
      try (match goal with
           | E : scan_number _ = Some _ |- _ => apply scan_number_closer in E; exact E
           | E : scan_constant _ = Some _ |- _ => apply scan_constant_closer in E; exact E
           end);
      try (eapply (word_closer "null"); [eassumption | reflexivity |];
           exists (lit "nul"), 108%N; split; reflexivity);
      try (eapply (word_closer "true"); [eassumption | reflexivity |];
           exists (lit "tru"), 101%N; split; reflexivity);
      try (eapply (word_closer "false"); [eassumption | reflexivity |];
           exists (lit "fals"), 101%N; split; reflexivity);
      name_skip_ws; explicit; find_closer.
  - intros s acc v r H. cbn [elements] in H.
    repeat break_in H; try discriminate;
      try (apply IH2 in H);
      try (apply Parsed_rest in H; subst r);
      match goal with E : scan_once _ _ = Parsed _ _ |- _ => apply IH1 in E end;
      name_skip_ws; explicit; find_closer.
  - intros s acc v r H. cbn [members] in H.
    repeat break_in H; try discriminate;
      try (apply IH3 in H);
      try (apply Parsed_rest in H; subst r);
      name_skip_ws;
      match goal with E : scan_once _ _ = Parsed _ _ |- _ => apply IH1 in E end;
      explicit; find_closer.
Qed.

Lemma skip_ws_nil (s : str) : skip_ws s = [] -> forallb is_ws s = true.
Proof.
  induction s as [| c s IH]; [reflexivity |]. cbn [skip_ws forallb].
  destruct (is_ws c); [exact IH | discriminate].
Qed.

(** A text that [json.loads] accepts ends with a closer, followed by
    whitespace only. *)
Lemma loads_closer (s : str) (v : value) :
  loads s = Some v ->
  exists pre c ws, s = pre ++ c :: ws /\ closer c = true /\ forallb is_ws ws = true.
Proof.
  unfold loads. intros H.
  destruct (scan_once (fuel_for s) (skip_ws s)) as [a r | |] eqn:E; try discriminate.
  destruct (skip_ws r) eqn:R; [| discriminate].
  apply (proj1 (scan_once_closer _)) in E as (pre & c & E & C).
  destruct (skip_ws_suffix s) as [w Ew]. rewrite E in Ew.
  exists (w ++ pre), c, r. rewrite <- app_assoc.
  split; [exact Ew | split; [exact C | apply skip_ws_nil, R]].
Qed.

(** A text whose last character is neither a closer nor whitespace is
    rejected by [json.loads]. *)
Lemma loads_rejects_last (s : str) (c : char) :
  closer c = false -> is_ws c = false -> loads (s ++ [c]) = None.
Proof.
  intros C W. destruct (loads (s ++ [c])) as [v |] eqn:L; [| reflexivity].
  exfalso. apply loads_closer in L as (pre & c' & ws & E & C' & Ws).
  destruct (exists_last (l := c' :: ws)) as (l & a & El); [discriminate |].
  assert (a = c) as ->.
  { rewrite El, app_assoc in E. apply app_inj_tail in E as [_ E]. congruence. }
  destruct ws as [| w ws].
  - destruct l; [| destruct l; discriminate]. injection El as <-. congruence.
  - assert (In c (w :: ws)) as I.
    { assert (In c (c' :: w :: ws)) as I by (rewrite El; apply in_or_app; right; left; reflexivity).
      destruct I as [<- |]; [| assumption]. congruence. }
    rewrite forallb_forall in Ws. rewrite (Ws c I) in W. discriminate.
Qed.

End JsonFacts.

Lemma lstrip_snoc (s : str) (c : char) :
  isspace c = false -> exists y, lstrip (s ++ [c]) = y ++ [c].
Proof.
  intros C. induction s as [| a s [y IH]]; cbn [app lstrip].
  - rewrite C. exists []. reflexivity.
  - destruct (isspace a); [exists y; exact IH | exists (a :: s); reflexivity].
Qed.

Lemma strip_snoc (s : str) (c : char) :
  isspace c = false -> exists y, strip (s ++ [c]) = y ++ [c].
Proof.
  intros C. unfold strip, rstrip.
  destruct (lstrip_snoc s c C) as [y ->]. exists y.
  rewrite rev_app_distr. cbn [rev app lstrip]. rewrite C.
  cbn [rev]. rewrite rev_involutive. reflexivity.
Qed.

(** A text that ends with [>] is not JSON. *)
Lemma text_ending_with_gt_is_not_json (s : str) :
  Json.loads (strip (s ++ [62%N])) = None.
Proof.
  destruct (strip_snoc s 62%N eq_refl) as [y E].
  transitivity (Json.loads (y ++ [62%N])); [f_equal; exact E |].
  apply loads_rejects_last; reflexivity.
Qed.

(* ================================================================== *)
(** * Properties of the extractors *)
(* ================================================================== *)

#[local] Arguments Json.loads : simpl never.
#[local] Arguments find : simpl never.
#[local] Arguments slice : simpl never.
#[local] Arguments strip : simpl never.

Section Verbose.

Variables (result_str : str) (return_message : bool).

Lemma qwen_failed_verbose :
  fst (qwen_failed result_str return_message true)
  = fst (qwen_failed result_str return_message false).
Proof. reflexivity. Qed.

Lemma qwen_functioncall_verbose :
  fst (qwen_functioncall result_str return_message true)
  = fst (qwen_functioncall result_str return_message false).
Proof.
  unfold qwen_functioncall.
  destruct (qwen_functioncall_str result_str) as [x |]; [| reflexivity].
  destruct (Json.loads (strip x)); reflexivity.
Qed.

Lemma qwen_tool_calls_verbose :
  fst (qwen_tool_calls result_str return_message true)
  = fst (qwen_tool_calls result_str return_message false).
Proof.
  unfold qwen_tool_calls.
  pose proof qwen_functioncall_verbose as H.
  destruct (qwen_tool_calls_str result_str) as [x |]; [| exact H].
  destruct (Json.loads (strip x)); [reflexivity |].
  destruct (qwen_functioncall result_str return_message true),
    (qwen_functioncall result_str return_message false). exact H.
Qed.

Lemma qwen_tool_call_verbose :
  fst (qwen_tool_call result_str return_message true)
  = fst (qwen_tool_call result_str return_message false).
Proof.
  unfold qwen_tool_call.
  pose proof qwen_tool_calls_verbose as H.
  destruct (qwen_tool_call_str result_str) as [x |]; [| exact H].
  destruct (Json.loads x); [reflexivity |].
  destruct (qwen_tool_calls result_str return_message true),
    (qwen_tool_calls result_str return_message false). exact H.
Qed.

End Verbose.

(** The [verbose] flag stands before [print] calls only: the value computed
    is the same with it on and off. *)
Lemma verbose_guards_prints_only (lst : llm_output) (return_message : bool) :
  fst (extract_function_call_json lst return_message true)
  = fst (extract_function_call_json lst return_message false)
  /\ fst (extract_function_call_json_from_qwen lst return_message true)
     = fst (extract_function_call_json_from_qwen lst return_message false).
Proof.
  split.
  - destruct lst as [d | l]; [reflexivity |].
    unfold extract_function_call_json.
    destruct (Json.loads (strip (join l))); [reflexivity |].
    destruct (Json.loads (strip (tool_calls_str (join l)))); [reflexivity |].
    destruct (Json.loads (strip (functioncall_str (join l)))); reflexivity.
  - destruct lst as [d | l]; [reflexivity |].
    unfold extract_function_call_json_from_qwen.
    destruct (Json.loads (strip (join l))); [reflexivity |].
    pose proof (qwen_tool_call_verbose (join l) return_message) as H.
    destruct (qwen_tool_call (join l) return_message true),
      (qwen_tool_call (join l) return_message false). exact H.
Qed.

Lemma print_each_app (a b : list printed) :
  print_each (a ++ b) = bind (print_each a) (fun _ => print_each b).
Proof.
  induction a as [| p a IH]; [reflexivity |].
  cbn [app print_each]. destruct (print p) as [[] | e]; [exact IH | reflexivity].
Qed.

Lemma as_called_returns (run : extraction * list printed) :
  print_each (snd run) = Return tt -> as_called run = Return (fst run).
Proof. intros H. unfold as_called. rewrite H. reflexivity. Qed.

Section Printing.

Variables (result_str : str) (return_message verbose : bool).

(** Steps 2 to 5 of the Qwen extractor print fixed ASCII texts. *)
Lemma qwen_failed_prints :
  print_each (snd (qwen_failed result_str return_message verbose)) = Return tt.
Proof. destruct verbose; reflexivity. Qed.

Lemma qwen_functioncall_prints :
  print_each (snd (qwen_functioncall result_str return_message verbose)) = Return tt.
Proof.
  unfold qwen_functioncall.
  destruct (qwen_functioncall_str result_str) as [x |];
    [| apply qwen_failed_prints].
  destruct (Json.loads (strip x)); [reflexivity |].
  destruct verbose; reflexivity.
Qed.

Lemma qwen_tool_calls_prints :
  print_each (snd (qwen_tool_calls result_str return_message verbose)) = Return tt.
Proof.
  unfold qwen_tool_calls.
  pose proof qwen_functioncall_prints as H.
  destruct (qwen_tool_calls_str result_str) as [x |]; [| exact H].
  destruct (Json.loads (strip x)); [reflexivity |].
  destruct (qwen_functioncall result_str return_message verbose) as [r out].
  cbn [snd] in *. rewrite print_each_app, H. destruct verbose; reflexivity.
Qed.

Lemma qwen_tool_call_prints :
  print_each (snd (qwen_tool_call result_str return_message verbose)) = Return tt.
Proof.
  unfold qwen_tool_call.
  pose proof qwen_tool_calls_prints as H.
  destruct (qwen_tool_call_str result_str) as [x |]; [| exact H].
  destruct (Json.loads x); [reflexivity |].
  destruct (qwen_tool_calls result_str return_message verbose) as [r out].
  cbn [snd] in *. rewrite print_each_app, H. destruct verbose; reflexivity.
Qed.

End Printing.

(** The first [print] of either extractor has the text as its second
    argument. *)
Lemma print_text (header result_str : str) :
  encodable header = true ->
  print (PrintStr [header; result_str])
  = if encodable result_str then Return tt else Raise UnicodeEncodeError.
Proof.
  intros H. cbn [print forallb]. rewrite H, andb_true_r. reflexivity.
Qed.

(** On a text the standard output encodes, no [print] of the extractors
    raises: the call returns the value computed. *)
Lemma extract_function_call_json_returns (lst : llm_output)
    (return_message verbose : bool) :
  encodable (text_of lst) = true ->
  as_called (extract_function_call_json lst return_message verbose)
  = Return (fst (extract_function_call_json lst return_message verbose)).
Proof.
  intros H. apply as_called_returns.
  destruct lst as [d | l]; [reflexivity |]. cbn [text_of] in H.
  unfold extract_function_call_json.
  assert (P : print_each
                (if verbose
                 then [PrintStr [ESC :: lit "[1;34mPossible LLM outputs for function call:"
                                   ++ ESC :: lit "[0m";
                                 join l]]
                 else []) = Return tt).
  { destruct verbose; [| reflexivity].
    cbn [print_each]. rewrite print_text, H; reflexivity. }
  destruct (Json.loads (strip (join l))); [exact P |].
  destruct (Json.loads (strip (tool_calls_str (join l)))); [exact P |].
  destruct (Json.loads (strip (functioncall_str (join l)))); cbn [snd];
    rewrite ?print_each_app, P; reflexivity.
Qed.

Lemma extract_function_call_json_from_qwen_returns (lst : llm_output)
    (return_message verbose : bool) :
  encodable (text_of lst) = true ->
  as_called (extract_function_call_json_from_qwen lst return_message verbose)
  = Return (fst (extract_function_call_json_from_qwen lst return_message verbose)).
Proof.
  intros H. apply as_called_returns.
  destruct lst as [d | l]; [reflexivity |]. cbn [text_of] in H.
  unfold extract_function_call_json_from_qwen.
  assert (P : print_each
                (if verbose
                 then [PrintStr [ESC :: lit "[1;34mQwen LLM outputs for function call:"
                                   ++ ESC :: lit "[0m";
                                 join l]]
                 else []) = Return tt).
  { destruct verbose; [| reflexivity].
    cbn [print_each]. rewrite print_text, H; reflexivity. }
  destruct (Json.loads (strip (join l))); [exact P |].
  pose proof (qwen_tool_call_prints (join l) return_message verbose) as Q.
  destruct (qwen_tool_call (join l) return_message verbose) as [r out].
  cbn [snd] in *. rewrite print_each_app, P, Q. reflexivity.
Qed.

(** With [verbose] on, the first [print] raises on a text the standard
    output cannot encode, before anything is decoded. *)
Lemma verbose_raises_on_unencodable_text (lst : list str) (return_message : bool) :
  encodable (join lst) = false ->
  as_called (extract_function_call_json (Fragments lst) return_message true)
  = Raise UnicodeEncodeError
  /\ as_called (extract_function_call_json_from_qwen (Fragments lst) return_message true)
     = Raise UnicodeEncodeError.
Proof.
  intros H. unfold as_called. split.
  - unfold extract_function_call_json.
    destruct (Json.loads (strip (join lst)));
      [| destruct (Json.loads (strip (tool_calls_str (join lst))));
         [| destruct (Json.loads (strip (functioncall_str (join lst))))]];
      cbn [snd]; rewrite ?print_each_app; cbn [print_each];
      rewrite print_text, H; reflexivity.
  - unfold extract_function_call_json_from_qwen.
    destruct (Json.loads (strip (join lst)));
      [| destruct (qwen_tool_call (join lst) return_message true) as [r out]];
      cbn [snd]; rewrite ?print_each_app; cbn [print_each];
      rewrite print_text, H; reflexivity.
Qed.

(** C9, amended.  On every input whose text the standard output encodes (no
    surrogate code point in the fragments joined), and for either setting of
    [return_message], a call of [extract_function_call_json] returns, and
    returns the same value with [verbose] on and off; so does a call of
    [extract_function_call_json_from_qwen]. *)
Theorem verbose_does_not_change_the_result (lst : llm_output) (return_message : bool) :
  encodable (text_of lst) = true ->
  (exists r : extraction,
     as_called (extract_function_call_json lst return_message true) = Return r
     /\ as_called (extract_function_call_json lst return_message false) = Return r)
  /\ (exists r : extraction,
        as_called (extract_function_call_json_from_qwen lst return_message true)
        = Return r
        /\ as_called (extract_function_call_json_from_qwen lst return_message false)
           = Return r).
Proof.
  intros H. destruct (verbose_guards_prints_only lst return_message) as [G Q].
  split.
  - exists (fst (extract_function_call_json lst return_message false)).
    rewrite !extract_function_call_json_returns by exact H.
    split; [f_equal; exact G | reflexivity].
  - exists (fst (extract_function_call_json_from_qwen lst return_message false)).
    rewrite !extract_function_call_json_from_qwen_returns by exact H.
    split; [f_equal; exact Q | reflexivity].
Qed.

Lemma verbose_does_not_change_the_result_witness :
  let thought := [24605%N; 32771%N] in
  let lst := Fragments [lit "<think>" ++ thought ++ lit "</think>";
                        jlit "<tool_call>{'name': 'f', 'arguments': {}}</tool_call>"] in
  let call := value_of_call {| name := lit "f"; arguments := [] |} in
  encodable (text_of lst) = true
  /\ as_called (extract_function_call_json lst true true)
     = as_called (extract_function_call_json lst true false)
  /\ as_called (extract_function_call_json_from_qwen lst true true)
     = as_called (extract_function_call_json_from_qwen lst true false)
  /\ as_called (extract_function_call_json_from_qwen lst true false)
     = Return (WithMessage call thought).
Proof.
  split; [vm_compute; reflexivity |].
  destruct (verbose_does_not_change_the_result
              (Fragments [lit "<think>" ++ [24605%N; 32771%N] ++ lit "</think>";
                          jlit "<tool_call>{'name': 'f', 'arguments': {}}</tool_call>"])
              true)
    as [(r & G1 & G2) (q & Q1 & Q2)]; [vm_compute; reflexivity |].
  split; [rewrite G1, G2; reflexivity |].
  split; [rewrite Q1, Q2; reflexivity |].
  vm_compute; reflexivity.
Defined.

(** C9, as stated, fails.  The text is a JSON call one of whose strings holds
    the surrogate U+D800.  With [verbose] off both extractors return the
    call; with [verbose] on the [print] of the text raises
    [UnicodeEncodeError], which no [except] clause catches. *)
Lemma verbose_raises_counterexample :
  let lst := Fragments [jlit "{'name': 'f', 'arguments': {'q': '";
                        [55296%N]; jlit "'}}"] in
  let call := value_of_call {| name := lit "f";
                               arguments := [(lit "q", VStr [55296%N])] |} in
  as_called (extract_function_call_json lst false false) = Return (Bare call)
  /\ as_called (extract_function_call_json lst false true) = Raise UnicodeEncodeError
  /\ as_called (extract_function_call_json_from_qwen lst false false)
     = Return (Bare call)
  /\ as_called (extract_function_call_json_from_qwen lst false true)
     = Raise UnicodeEncodeError.
Proof.
  vm_compute. repeat split.
Qed.

(** A [dict] given in place of text is returned as it is, with the empty
    string as message when one is requested. *)
Lemma structured_input_is_returned (d : dict) (return_message verbose : bool) :
  fst (extract_function_call_json (Structured d) return_message verbose)
  = (if return_message then WithMessage (VDict d) [] else Bare (VDict d))
  /\ fst (extract_function_call_json_from_qwen (Structured d) return_message verbose)
     = (if return_message then WithMessage (VDict d) [] else Bare (VDict d)).
Proof. split; reflexivity. Qed.



Section OpenEnded.

Variable result_str : str.

Let index_start := find TOOL_CALLS result_str.
Let tail := skipn (Z.to_nat (index_start + len TOOL_CALLS)) result_str.

Hypothesis start_found : index_start <> -1.
Hypothesis no_end_s : find END_S result_str = -1.
Hypothesis no_eom_id : find EOM_ID result_str = -1.

Lemma tool_calls_index_start_nonneg : 0 <= index_start.
Proof.
  destruct (find_range TOOL_CALLS result_str) as [H | H];
    [contradiction | apply H].
Qed.

(** The text is: what precedes the first [[TOOL_CALLS]], the marker,
    [tail]. *)
Lemma tool_calls_split :
  result_str = firstn (Z.to_nat index_start) result_str ++ TOOL_CALLS ++ tail.
Proof. apply find_found, start_found. Qed.

Lemma tool_calls_str_open_ended : tool_calls_str result_str = tail.
Proof.
  unfold tool_calls_str, tool_calls_index_end.
  rewrite no_end_s, no_eom_id. simpl.
  apply slice_from. pose proof tool_calls_index_start_nonneg.
  unfold index_start in *. unfold len. lia.
Qed.

Lemma qwen_tool_calls_str_open_ended :
  qwen_tool_calls_str result_str = Some tail.
Proof.
  unfold qwen_tool_calls_str, tool_calls_index_end.
  rewrite no_end_s, no_eom_id.
  fold index_start. destruct (index_start =? -1) eqn:E;
    [apply Z.eqb_eq in E; contradiction |].
  simpl. f_equal.
  apply slice_from. pose proof tool_calls_index_start_nonneg.
  unfold len. lia.
Qed.

End OpenEnded.

(** Step 4 of the Qwen extractor is not attempted without [</functioncall>]. *)
Lemma qwen_functioncall_str_needs_end (result_str : str) :
  find FUNCTIONCALL_END result_str = -1 ->
  qwen_functioncall_str result_str = None.
Proof.
  intros H. unfold qwen_functioncall_str. rewrite H.
  destruct (find FUNCTIONCALL result_str =? -1); reflexivity.
Qed.




Section Unrecognized.

Variables (result_str : str) (return_message verbose : bool).

Lemma qwen_tool_call_str_needs_both :
  find TOOL_CALL result_str = -1 \/ find TOOL_CALL_END result_str = -1 ->
  qwen_tool_call_str result_str = None.
Proof.
  unfold qwen_tool_call_str. intros [H | H]; rewrite H; simpl;
    [reflexivity | rewrite andb_false_r; reflexivity].
Qed.

Lemma qwen_tool_calls_str_needs_start :
  find TOOL_CALLS result_str = -1 -> qwen_tool_calls_str result_str = None.
Proof. unfold qwen_tool_calls_str. intros H; rewrite H; reflexivity. Qed.

Lemma qwen_functioncall_str_needs_start :
  find FUNCTIONCALL result_str = -1 -> qwen_functioncall_str result_str = None.
Proof. unfold qwen_functioncall_str. intros H; rewrite H; reflexivity. Qed.

(** The Qwen extractor on a text with none of the four shapes. *)
Lemma qwen_unrecognized :
  (find TOOL_CALL result_str = -1 \/ find TOOL_CALL_END result_str = -1) ->
  find TOOL_CALLS result_str = -1 ->
  find FUNCTIONCALL result_str = -1 ->
  fst (qwen_tool_call result_str return_message verbose)
  = (if return_message then WithMessage VNone result_str else Bare VNone).
Proof.
  intros H2 H3 H4. unfold qwen_tool_call, qwen_tool_calls, qwen_functioncall.
  rewrite (qwen_tool_call_str_needs_both H2),
    (qwen_tool_calls_str_needs_start H3),
    (qwen_functioncall_str_needs_start H4).
  reflexivity.
Qed.

End Unrecognized.


(** C1 fails for [extract_function_call_json].  This prose is not JSON and
    contains none of the markers; [find] answers [-1] for [[TOOL_CALLS]],
    the slice then starts at index [-1 + 12], and what stands there is
    decoded and returned as the call, with the text less its last character
    as message. *)
Theorem extract_function_call_json_reads_unmarked_prose :
  let text := lit "The answer 42" in
  Json.loads (strip text) = None
  /\ find TOOL_CALLS text = -1
  /\ find TOOL_CALL text = -1
  /\ find FUNCTIONCALL text = -1
  /\ fst (extract_function_call_json (Fragments [text]) true true)
     = WithMessage (VInt 42) (lit "The answer 4")
  /\ fst (extract_function_call_json (Fragments [text]) false true)
     = Bare (VInt 42)
  /\ fst (extract_function_call_json_from_qwen (Fragments [text]) true true)
     = WithMessage VNone text.
Proof. vm_compute. repeat split. Qed.


(** With a message requested, the generic extractor returns a bare call
    only from its [<functioncall>] attempt. *)
Lemma bare_only_from_functioncall (lst : list str) (verbose : bool) (call : value) :
  fst (extract_function_call_json (Fragments lst) true verbose) = Bare call ->
  Json.loads (strip (join lst)) = None
  /\ Json.loads (strip (tool_calls_str (join lst))) = None
  /\ Json.loads (strip (functioncall_str (join lst))) = Some call.
Proof.
  unfold extract_function_call_json.
  destruct (Json.loads (strip (join lst))); [discriminate |].
  destruct (Json.loads (strip (tool_calls_str (join lst)))); [discriminate |].
  destruct (Json.loads (strip (functioncall_str (join lst)))); [| discriminate].
  simpl. intros [= ->]. auto.
Qed.

(** C4 fails on the [<functioncall>] path of [extract_function_call_json]:
    with a message requested, the call comes back alone, not in a pair with
    a message.  The Qwen extractor returns the pair on the same text. *)
Theorem functioncall_path_returns_no_message :
  let text := jlit "Sure. <functioncall>{'name': 'f', 'arguments': {}}</functioncall>" in
  let call := value_of_call {| name := lit "f"; arguments := [] |} in
  fst (extract_function_call_json (Fragments [text]) true true) = Bare call
  /\ fst (extract_function_call_json_from_qwen (Fragments [text]) true true)
     = WithMessage call (lit "Sure. ").
Proof. vm_compute. split; reflexivity. Qed.

(* ================================================================== *)
(** * Properties of [evaluate_function_call] *)
(* ================================================================== *)

Section CheckArguments.

Variable valid_params : list (str * property).

(** What the loop over the arguments computes: it returns at the first
    known argument whose declared type is outside [type_map]; otherwise it
    ends with every unknown argument appended to [invalid_params], and
    with some mismatches appended to [type_mismatches]. *)
Lemma check_arguments_spec (items : dict) :
  forall invalid_params type_mismatches,
    match first_unsupported valid_params items with
    | Some t =>
        check_arguments valid_params items invalid_params type_mismatches
        = inl (unsupported t)
    | None =>
        exists more,
          check_arguments valid_params items invalid_params type_mismatches
          = inr (invalid_params ++ unknown_arguments valid_params items,
                 type_mismatches ++ more)
    end.
Proof.
  induction items as [| [param value] items IH]; intros inv mism.
  - simpl. exists []. rewrite !app_nil_r. reflexivity.
  - cbn [first_unsupported check_arguments].
    unfold unknown_arguments, PyDict.keys. cbn [List.map fst List.filter].
    unfold PyDict.mem at 2.
    destruct (PyDict.get param valid_params) as [p |] eqn:G.
    + unfold PyDict.mem at 1.
      destruct (PyDict.get (type p) type_map) as [cls |] eqn:T;
        [| reflexivity].
      cbn [negb].
      destruct (negb (isinstance value cls)).
      * specialize (IH inv (mism ++ [(param, type p, type_name (type_of value))])).
        destruct (first_unsupported valid_params items); [exact IH |].
        destruct IH as [more IH]. eexists. rewrite IH, <- app_assoc. reflexivity.
      * apply IH.
    + cbn [negb]. specialize (IH (inv ++ [param]) mism).
      destruct (first_unsupported valid_params items); [exact IH |].
      destruct IH as [more IH]. exists more. rewrite IH, <- app_assoc. reflexivity.
Qed.

End CheckArguments.

Lemma dict_get_app_value {A : Type} (k' k : str) (v1 v2 : A) (pre post : list (str * A)) :
  PyDict.mem k' (pre ++ (k, v1) :: post) = PyDict.mem k' (pre ++ (k, v2) :: post).
Proof.
  unfold PyDict.mem. induction pre as [| [k0 v0] pre IH]; simpl.
  - destruct (PyStr.eqb k' k); reflexivity.
  - destruct (PyStr.eqb k' k0); [reflexivity | exact IH].
Qed.

Lemma no_missing_params (td : tool_definition) (fc : function_call) :
  (forall k p, In (k, p) (properties td) -> is_required p = true ->
               PyDict.mem k (arguments fc) = true) ->
  missing_params td fc = [].
Proof.
  intros H. unfold missing_params, required_params.
  induction (properties td) as [| [k p] props IH]; [reflexivity |].
  simpl. destruct (is_required p) eqn:R.
  - simpl. rewrite (H k p (or_introl eq_refl) R).
    simpl. apply IH. intros k' p' I. apply H. right; exact I.
  - apply IH. intros k' p' I. apply H. right; exact I.
Qed.

Lemma unknown_arguments_nonempty (valid_params : list (str * property)) (items : dict) (k : str) :
  In k (PyDict.keys items) -> PyDict.get k valid_params = None ->
  unknown_arguments valid_params items <> [].
Proof.
  intros I G E.
  assert (In k (unknown_arguments valid_params items)) as X.
  { apply filter_In. split; [exact I |]. unfold PyDict.mem. rewrite G. reflexivity. }
  rewrite E in X. exact X.
Qed.

(** C5, amended.  The name matches, every required argument is present and
    some argument is unknown to the schema.  Then the call is rejected, and
    the reason is: the declared type of the first argument (in the order of
    iteration) that the schema knows with a type outside the six of
    [type_map], when there is one; otherwise the list of all the unknown
    arguments.  In neither case is it a list of type mismatches. *)
Theorem unknown_arguments_are_reported (td : tool_definition) (fc : function_call)
    (unknown : str) :
  tool_name td = name fc ->
  (forall k p, In (k, p) (properties td) -> is_required p = true ->
               PyDict.mem k (arguments fc) = true) ->
  In unknown (PyDict.keys (arguments fc)) ->
  PyDict.get unknown (properties td) = None ->
  evaluate_function_call td fc
  = match first_unsupported (properties td) (arguments fc) with
    | Some expected_type => unsupported expected_type
    | None =>
        invalid_parameters (unknown_arguments (properties td) (arguments fc))
    end.
Proof.
  intros Hname Hreq Hin Hget. unfold evaluate_function_call.
  rewrite Hname, str_eqb_refl. cbn [negb].
  rewrite (no_missing_params td fc Hreq).
  pose proof (check_arguments_spec (properties td) (arguments fc) [] []) as S.
  pose proof (unknown_arguments_nonempty _ _ _ Hin Hget) as N.
  destruct (first_unsupported (properties td) (arguments fc)).
  - rewrite S. reflexivity.
  - destruct S as [more S]. rewrite S. cbn [app].
    destruct (unknown_arguments (properties td) (arguments fc));
      [contradiction | reflexivity].
Qed.

Lemma unknown_arguments_are_reported_witness :
  let td := {| tool_name := lit "Tool_RAG";
               properties := [(lit "description", {| type := lit "string"; required := Some true |});
                              (lit "limit", {| type := lit "integer"; required := None |})] |} in
  let fc := {| name := lit "Tool_RAG";
               arguments := [(lit "top_k", VInt 3);
                             (lit "description", VInt 7);
                             (lit "verbose", VBool true)] |} in
  evaluate_function_call td fc
  = invalid_parameters [lit "top_k"; lit "verbose"].
Proof.
  apply (unknown_arguments_are_reported
           {| tool_name := lit "Tool_RAG";
              properties := [(lit "description", {| type := lit "string"; required := Some true |});
                             (lit "limit", {| type := lit "integer"; required := None |})] |}
           {| name := lit "Tool_RAG";
              arguments := [(lit "top_k", VInt 3);
                            (lit "description", VInt 7);
                            (lit "verbose", VBool true)] |}
           (lit "top_k")).
  - reflexivity.
  - intros k p [[= <- <-] | [[= <- <-] | []]]; [reflexivity | discriminate].
  - left; reflexivity.
  - reflexivity.
Defined.

(** C5, as stated, fails.  The name matches, nothing is required, [top_k]
    is unknown to the schema; the reason returned is the unsupported type of
    [limit], not the list of the unknown arguments.  It is so whether the
    unknown argument comes before or after [limit]. *)
Lemma unknown_argument_counterexample :
  let td := {| tool_name := lit "Tool_RAG";
               properties := [(lit "limit", {| type := lit "float"; required := None |})] |} in
  let before := {| name := lit "Tool_RAG";
                   arguments := [(lit "top_k", VInt 3); (lit "limit", VInt 1)] |} in
  let after := {| name := lit "Tool_RAG";
                  arguments := [(lit "limit", VInt 1); (lit "top_k", VInt 3)] |} in
  tool_name td = name before
  /\ missing_params td before = []
  /\ unknown_arguments (properties td) (arguments before) = [lit "top_k"]
  /\ evaluate_function_call td before = unsupported (lit "float")
  /\ evaluate_function_call td after = unsupported (lit "float")
  /\ evaluate_function_call td before <> invalid_parameters [lit "top_k"].
Proof. vm_compute. repeat split; discriminate. Qed.

(** C6 fails on the code: [type_map] sends ["number"] to [float] alone, and
    an [int] is not a [float].  A whole number given for a parameter
    declared ["number"] is entered in the list of type mismatches, and the
    call is rejected; the same call with a [float] is valid. *)
Theorem number_rejects_whole_numbers :
  let td := {| tool_name := lit "Tool_RAG";
               properties := [(lit "limit", {| type := lit "number"; required := Some true |})] |} in
  let whole := {| name := lit "Tool_RAG"; arguments := [(lit "limit", VInt 1)] |} in
  let real := {| name := lit "Tool_RAG";
                 arguments := [(lit "limit", VFloat (PyFloat.of_decimal false 15 (-1)))] |} in
  Json.loads (jlit "{'limit': 1}") = Some (VDict (arguments whole))
  /\ Json.loads (jlit "{'limit': 1.5}") = Some (VDict (arguments real))
  /\ isinstance (VInt 1) TFloat = false
  /\ evaluate_function_call td whole
     = (false, [Text (lit "Type mismatches: ");
                Field (ShowTypeMismatches [(lit "limit", lit "number", lit "int")])])
  /\ evaluate_function_call td real = call_is_valid.
Proof. vm_compute. repeat split. Qed.

Section BoolAsInteger.

Variables (valid_params : list (str * property)) (k : str) (p : property).
Hypothesis known : PyDict.get k valid_params = Some p.
Hypothesis declared_integer : type p = lit "integer".

(** A [bool] met by the loop under a parameter declared ["integer"] adds
    nothing to either list. *)
Lemma check_arguments_bool (b : bool) (items : dict) invalid_params type_mismatches :
  check_arguments valid_params ((k, VBool b) :: items) invalid_params type_mismatches
  = check_arguments valid_params items invalid_params type_mismatches.
Proof. simpl. rewrite known, declared_integer. reflexivity. Qed.

Lemma check_arguments_int (z : Z) (items : dict) invalid_params type_mismatches :
  check_arguments valid_params ((k, VInt z) :: items) invalid_params type_mismatches
  = check_arguments valid_params items invalid_params type_mismatches.
Proof. simpl. rewrite known, declared_integer. reflexivity. Qed.

Lemma check_arguments_bool_int (b : bool) (z : Z) (pre post : dict) :
  forall invalid_params type_mismatches,
    check_arguments valid_params (pre ++ (k, VBool b) :: post)
      invalid_params type_mismatches
    = check_arguments valid_params (pre ++ (k, VInt z) :: post)
        invalid_params type_mismatches.
Proof.
  induction pre as [| [param value] pre IH]; intros inv mism.
  - cbn [app]. rewrite check_arguments_bool, check_arguments_int. reflexivity.
  - cbn [app check_arguments].
    destruct (PyDict.get param valid_params) as [q |]; [| apply IH].
    destruct (PyDict.get (type q) type_map) as [cls |]; [| reflexivity].
    destruct (negb (isinstance value cls)); apply IH.
Qed.

End BoolAsInteger.

(** C10.  For a parameter the schema declares ["integer"], a [bool]
    argument is an instance of the expected class, the loop enters no
    mismatch for it, and the verdict on the call is the verdict on the same
    call with any [int] in the place of the [bool]: valid if that one is. *)
Theorem bool_passes_as_integer (td : tool_definition) (fname k : str) (p : property)
    (pre post : dict) (b : bool) :
  PyDict.get k (properties td) = Some p ->
  type p = lit "integer" ->
  (exists cls, PyDict.get (type p) type_map = Some cls
               /\ isinstance (VBool b) cls = true)
  /\ (forall invalid_params type_mismatches,
        check_arguments (properties td) ((k, VBool b) :: post)
          invalid_params type_mismatches
        = check_arguments (properties td) post invalid_params type_mismatches)
  /\ (forall z,
        evaluate_function_call td
          {| name := fname; arguments := pre ++ (k, VBool b) :: post |}
        = evaluate_function_call td
            {| name := fname; arguments := pre ++ (k, VInt z) :: post |}).
Proof.
  intros Hk Ht. split; [| split].
  - exists TInt. rewrite Ht. split; reflexivity.
  - intros. apply (check_arguments_bool _ _ _ Hk Ht).
  - intros z. unfold evaluate_function_call. cbn [name arguments].
    destruct (negb (PyStr.eqb (tool_name td) fname)); [reflexivity |].
    assert (M : missing_params td {| name := fname; arguments := pre ++ (k, VBool b) :: post |}
                = missing_params td {| name := fname; arguments := pre ++ (k, VInt z) :: post |}).
    { unfold missing_params. cbn [arguments].
      apply filter_ext. intros a. f_equal. apply dict_get_app_value. }
    rewrite M.
    rewrite (check_arguments_bool_int _ _ _ Hk Ht b z pre post). reflexivity.
Qed.

Lemma bool_passes_as_integer_witness :
  let td := {| tool_name := lit "Tool_RAG";
               properties := [(lit "description", {| type := lit "string"; required := Some true |});
                              (lit "limit", {| type := lit "integer"; required := Some true |})] |} in
  evaluate_function_call td
    {| name := lit "Tool_RAG";
       arguments := [(lit "description", VStr (lit "tools")); (lit "limit", VBool true)] |}
  = call_is_valid.
Proof.
  destruct (bool_passes_as_integer
           {| tool_name := lit "Tool_RAG";
              properties := [(lit "description", {| type := lit "string"; required := Some true |});
                             (lit "limit", {| type := lit "integer"; required := Some true |})] |}
           (lit "Tool_RAG") (lit "limit")
           {| type := lit "integer"; required := Some true |}
           [(lit "description", VStr (lit "tools"))] [] true
           eq_refl eq_refl) as (_ & _ & H).
  cbv zeta. cbn [app] in H. rewrite (H 1). vm_compute. reflexivity.
Defined.

(* ================================================================== *)
(** * Properties of [compare_function_calls] *)
(* ================================================================== *)

Lemma py_eq_list (l m : list value) : py_eq (VList l) (VList m) = items_eq l m.
Proof.
  reflexivity.
Qed.

Lemma py_eq_dict (d e : dict) :
  py_eq (VDict d) (VDict e)
  = Nat.eqb (List.length d) (List.length e) && entries_eq d e.
Proof.
  cbn [py_eq]. f_equal.
  induction d as [| [k x] d IH]; [reflexivity |].
  cbn [entries_eq]. destruct (PyDict.get k e); [| reflexivity].
  rewrite <- IH. reflexivity.
Qed.

(** Induction on a value, with the hypothesis for every item of a list and
    every value of a dict. *)
Lemma value_nested_ind (P : value -> Prop) :
  P VNone ->
  (forall b, P (VBool b)) ->
  (forall z, P (VInt z)) ->
  (forall f, P (VFloat f)) ->
  (forall s, P (VStr s)) ->
  (forall l, Forall P l -> P (VList l)) ->
  (forall d, Forall (fun kv => P (snd kv)) d -> P (VDict d)) ->
  forall v, P v.
Proof.
  intros HN HB HI HF HS HL HD.
  fix IH 1. intros [| b | z | f | s | l | d].
  - exact HN.
  - apply HB.
  - apply HI.
  - apply HF.
  - apply HS.
  - apply HL. induction l as [| x l IHl]; constructor; [apply IH | exact IHl].
  - apply HD. induction d as [| [k x] d IHd]; constructor; [apply IH | exact IHd].
Qed.

Lemma float_eqb_refl (f : pyfloat) : PyFloat.is_nan f = false -> PyFloat.eqb f f = true.
Proof.
  destruct f as [oid | s | s | s m e]; simpl; try discriminate; intros _.
  - destruct s; reflexivity.
  - reflexivity.
  - unfold PyFloat.eqb, SFeqb. simpl.
    rewrite Z.compare_refl, Pos.compare_cont_refl. destruct s; reflexivity.
Qed.

Lemma dict_get_distinct (d : dict) (k : str) (x : value) :
  distinct (PyDict.keys d) = true -> In (k, x) d -> PyDict.get k d = Some x.
Proof.
  induction d as [| [k0 x0] d IH]; [intros _ [] |].
  cbn [PyDict.keys List.map fst distinct PyDict.get].
  rewrite andb_true_iff, negb_true_iff. intros [Hnew Hd] [[= -> ->] | I].
  - rewrite str_eqb_refl. reflexivity.
  - destruct (PyStr.eqb k k0) eqn:E; [| apply IH; assumption].
    apply str_eqb_eq in E. subst k0. exfalso.
    assert (existsb (PyStr.eqb k) (List.map fst d) = true) as X.
    { apply existsb_exists. exists k. split; [| apply str_eqb_refl].
      apply in_map_iff. exists (k, x). split; [reflexivity | exact I]. }
    unfold PyDict.keys in Hnew. congruence.
Qed.

(** A well-formed value is equal to itself as an item of a container; it is
    [==] to itself unless it is a NaN. *)
Lemma item_eq_refl (v : value) :
  wf_value v = true ->
  item_eq v v = true /\ (is_nan_value v = false -> py_eq v v = true).
Proof.
  induction v as [| b | z | f | s | l IHl | d IHd] using value_nested_ind;
    intros W; unfold item_eq.
  - split; reflexivity.
  - split; [| intros _]; simpl; rewrite Z.eqb_refl; try apply orb_true_r; reflexivity.
  - split; [| intros _]; simpl; rewrite Z.eqb_refl; try apply orb_true_r; reflexivity.
  - split.
    + destruct f as [oid | s | s | s m e];
        [simpl; rewrite Nat.eqb_refl; reflexivity | | |];
        (cbn [py_eq]; rewrite float_eqb_refl by reflexivity; apply orb_true_r).
    + simpl. apply float_eqb_refl.
  - assert (py_eq (VStr s) (VStr s) = true) as E by apply str_eqb_refl.
    rewrite E. split; [apply orb_true_r | reflexivity].
  - assert (py_eq (VList l) (VList l) = true) as E.
    { rewrite py_eq_list. cbn [wf_value] in W.
      induction l as [| x l IH]; [reflexivity |].
      cbn [forallb] in W. apply andb_true_iff in W as [Wx Wl].
      inversion IHl as [| ? ? Px Pl]; subst.
      cbn [items_eq]. rewrite (proj1 (Px Wx)). apply IH; assumption. }
    rewrite E. split; [apply orb_true_r | reflexivity].
  - assert (py_eq (VDict d) (VDict d) = true) as E.
    { rewrite py_eq_dict, Nat.eqb_refl. cbn [andb wf_value] in *.
      apply andb_true_iff in W as [Wk Wv].
      assert (forall d', incl d' d -> entries_eq d' d = true) as A.
      { induction d' as [| [k x] d' IH]; [reflexivity |]. intros I.
        cbn [entries_eq].
        rewrite (dict_get_distinct d k x Wk) by (apply I; left; reflexivity).
        rewrite Forall_forall in IHd. rewrite forallb_forall in Wv.
        assert (In (k, x) d) as Ix by (apply I; left; reflexivity).
        pose proof (proj1 (IHd (k, x) Ix (Wv (k, x) Ix))) as Hx.
        cbn [snd] in Hx. rewrite Hx.
        apply IH. intros a Ia. apply I. right; exact Ia. }
      apply A, incl_refl. }
    rewrite E. split; [apply orb_true_r | reflexivity].
Qed.

Lemma py_ne_self (v : value) :
  wf_value v = true -> is_nan_value v = false -> py_ne v v = false.
Proof.
  intros W N. unfold py_ne. rewrite (proj2 (item_eq_refl v W) N). reflexivity.
Qed.

Lemma dict_get_in {A : Type} (d : list (str * A)) (k : str) (v : A) :
  PyDict.get k d = Some v -> In (k, v) d.
Proof.
  induction d as [| [k0 v0] d IH]; [discriminate |]. simpl.
  destruct (PyStr.eqb k k0) eqn:E.
  - apply str_eqb_eq in E. intros [= ->]. left; congruence.
  - intros H. right. apply IH, H.
Qed.

Lemma dict_mem_keys {A : Type} (d : list (str * A)) (k : str) :
  In k (PyDict.keys d) -> PyDict.mem k d = true.
Proof.
  unfold PyDict.mem. induction d as [| [k0 v0] d IH]; [intros [] |]. simpl.
  destruct (PyStr.eqb k k0) eqn:E; [reflexivity |].
  intros [-> | I]; [rewrite str_eqb_refl in E; discriminate | apply IH, I].
Qed.

Lemma key_sets_differ_self (d : dict) : key_sets_differ d d = false.
Proof.
  unfold key_sets_differ.
  assert (forallb (fun k => PyDict.mem k d) (PyDict.keys d) = true) as H
    by (apply forallb_forall; intros k; apply dict_mem_keys).
  rewrite H. reflexivity.
Qed.

Section CollectMismatches.

Variables pred_arguments gt_arguments : dict.

(** The loop raises nothing when every key it visits is a key of both
    dicts. *)
Lemma collect_mismatches_returns (keys : list str) :
  (forall k, In k keys ->
             PyDict.mem k pred_arguments = true /\ PyDict.mem k gt_arguments = true) ->
  forall acc, exists l,
    collect_mismatches pred_arguments gt_arguments keys acc = Return l.
Proof.
  induction keys as [| key keys IH]; intros H acc; [eexists; reflexivity |].
  cbn [collect_mismatches]. unfold subscript.
  destruct (H key (or_introl eq_refl)) as [Hp Hg]. unfold PyDict.mem in Hp, Hg.
  destruct (PyDict.get key pred_arguments) as [p |]; [| discriminate].
  destruct (PyDict.get key gt_arguments) as [g |]; [| discriminate].
  cbn [bind].
  destruct (py_ne p g); apply IH; intros k I; apply H; right; exact I.
Qed.

End CollectMismatches.

(** The comparison raises nothing with [compare_arguments] on, where the
    loop is reached only when the two dicts have the same keys, and nothing
    with [compare_value] off, where the loop is not reached. *)
Lemma compare_function_calls_returns (pred gt : function_call)
    (compare_arguments compare_value : bool) :
  compare_arguments = true \/ compare_value = false ->
  exists v,
    compare_function_calls pred gt compare_arguments compare_value = Return v.
Proof.
  intros C. unfold compare_function_calls.
  destruct (negb (PyStr.eqb (name pred) (name gt))); [eexists; reflexivity |].
  destruct (compare_arguments && key_sets_differ (arguments pred) (arguments gt)) eqn:K;
    [eexists; reflexivity |].
  destruct compare_value; [| eexists; reflexivity].
  destruct C as [-> | C]; [| discriminate]. cbn [andb] in K.
  unfold key_sets_differ in K. apply negb_false_iff, andb_true_iff in K as [K1 _].
  rewrite forallb_forall in K1.
  destruct (collect_mismatches_returns (arguments pred) (arguments gt)
              (PyDict.keys (arguments pred))) with (acc := @nil (str * value * value))
    as [l E].
  - intros k I. split; [apply dict_mem_keys, I | apply K1, I].
  - rewrite E. cbn [bind]. destruct l; eexists; reflexivity.
Qed.

(** C2 fails on the code.  With [compare_arguments] off and [compare_value]
    on, the loop subscripts the reference arguments with every key of the
    predicted ones; for a key the reference lacks, [gt_arguments[key]]
    raises [KeyError], and nothing catches it. *)
Theorem compare_function_calls_raises_KeyError :
  let pred := {| name := lit "Tool_RAG"; arguments := [(lit "limit", VInt 1)] |} in
  let gt := {| name := lit "Tool_RAG"; arguments := [] |} in
  compare_function_calls pred gt false true = Raise (KeyError (lit "limit")).
Proof. reflexivity. Qed.

Section Reflexivity.

Variable d : dict.
Hypothesis well_formed : forall k v, In (k, v) d -> wf_value v = true.
Hypothesis no_nan : forall k v, In (k, v) d -> is_nan_value v = false.

Lemma collect_mismatches_self (keys : list str) :
  incl keys (PyDict.keys d) ->
  collect_mismatches d d keys [] = Return [].
Proof.
  induction keys as [| key keys IH]; intros I; [reflexivity |].
  cbn [collect_mismatches]. unfold subscript.
  pose proof (dict_mem_keys d key (I key (or_introl eq_refl))) as M.
  unfold PyDict.mem in M.
  destruct (PyDict.get key d) as [v |] eqn:G; [| discriminate].
  cbn [bind]. apply dict_get_in in G.
  rewrite (py_ne_self v (well_formed _ _ G) (no_nan _ _ G)).
  apply IH. intros k Ik. apply I. right; exact Ik.
Qed.

End Reflexivity.

(** C8, amended.  A call none of whose argument values is a NaN compares
    as matching itself, with the reason "Function calls match.".  (The
    values are Python objects: within them a dict has each key once.  A NaN
    deeper inside an argument value does no harm, the call being compared
    with itself.) *)
Theorem compare_function_calls_reflexive (c : function_call) :
  (forall k v, In (k, v) (arguments c) -> wf_value v = true) ->
  (forall k v, In (k, v) (arguments c) -> is_nan_value v = false) ->
  compare_function_calls c c true true = Return calls_match.
Proof.
  intros W N. unfold compare_function_calls.
  rewrite str_eqb_refl, key_sets_differ_self. cbn [negb andb].
  rewrite (collect_mismatches_self (arguments c) W N) by apply incl_refl.
  reflexivity.
Qed.

Lemma compare_function_calls_reflexive_witness :
  let c := {| name := lit "Tool_RAG";
              arguments := [(lit "description", VStr (lit "tools"));
                            (lit "limit", VInt 1);
                            (lit "weights", VList [VFloat (FNaN 0); VFloat (PyFloat.of_decimal false 5 (-1))]);
                            (lit "filter", VDict [(lit "kind", VNone)])] |} in
  compare_function_calls c c true true = Return calls_match.
Proof.
  apply (compare_function_calls_reflexive
           {| name := lit "Tool_RAG";
              arguments := [(lit "description", VStr (lit "tools"));
                            (lit "limit", VInt 1);
                            (lit "weights", VList [VFloat (FNaN 0); VFloat (PyFloat.of_decimal false 5 (-1))]);
                            (lit "filter", VDict [(lit "kind", VNone)])] |}).
  - intros k v [[= <- <-] | [[= <- <-] | [[= <- <-] | [[= <- <-] | []]]]];
      reflexivity.
  - intros k v [[= <- <-] | [[= <- <-] | [[= <- <-] | [[= <- <-] | []]]]];
      reflexivity.
Defined.

Lemma collect_mismatches_self_eq (d : dict) (keys : list str) :
  incl keys (PyDict.keys d) ->
  forall acc, collect_mismatches d d keys acc = Return (acc ++ self_mismatches d keys).
Proof.
  induction keys as [| key keys IH]; intros I acc;
    [cbn; rewrite app_nil_r; reflexivity |].
  cbn [collect_mismatches self_mismatches flat_map]. unfold subscript.
  pose proof (dict_mem_keys d key (I key (or_introl eq_refl))) as M.
  unfold PyDict.mem in M.
  destruct (PyDict.get key d) as [v |]; [| discriminate]. cbn [bind].
  assert (incl keys (PyDict.keys d)) as I' by (intros k Ik; apply I; right; exact Ik).
  destruct (py_ne v v); rewrite IH by exact I'.
  - rewrite <- app_assoc. reflexivity.
  - reflexivity.
Qed.

(** Conversely, a NaN among the argument values always breaks the match
    of a call with itself. *)
Lemma nan_argument_breaks_reflexivity (c : function_call) (k : str) (v : value) :
  PyDict.get k (arguments c) = Some v ->
  is_nan_value v = true ->
  compare_function_calls c c true true <> Return calls_match.
Proof.
  intros G N. unfold compare_function_calls.
  rewrite str_eqb_refl, key_sets_differ_self. cbn [negb andb].
  rewrite collect_mismatches_self_eq by apply incl_refl. cbn [bind app].
  assert (In (k, v, v) (self_mismatches (arguments c) (PyDict.keys (arguments c)))) as I.
  { apply in_flat_map. exists k. split.
    - apply dict_get_in in G. apply in_map_iff. exists (k, v). auto.
    - rewrite G. destruct v as [| | | [oid | | |] | | |]; try discriminate.
      left; reflexivity. }
  destruct (self_mismatches (arguments c) (PyDict.keys (arguments c)));
    [destruct I | discriminate].
Qed.

(** C8, as stated, fails.  The text decodes to a call whose argument [x] is
    a NaN; compared with itself, that call is reported as not matching,
    because a NaN is not [==] to itself. *)
Lemma compare_function_calls_nan_counterexample :
  let c := {| name := lit "f"; arguments := [(lit "x", VFloat Json.NaN)] |} in
  Json.loads (jlit "{'name': 'f', 'arguments': {'x': NaN}}") = Some (value_of_call c)
  /\ compare_function_calls c c true true
     = Return (false, [Text (lit "Argument values do not match: ");
                       Field (ShowValueMismatches
                                [(lit "x", VFloat Json.NaN, VFloat Json.NaN)])])
  /\ compare_function_calls c c true true <> Return calls_match.
Proof. vm_compute. repeat split; discriminate. Qed.

(* ================================================================== *)
(** * The scenarios of the specification *)
(* ================================================================== *)

Example scenario_tool_call :
  fst (extract_function_call_json_from_qwen
         (Fragments [jlit "<tool_call>{'name': 'Tool_RAG', 'arguments': {'limit': 1}}</tool_call>"])
         true true)
  = WithMessage
      (value_of_call {| name := lit "Tool_RAG"; arguments := [(lit "limit", VInt 1)] |})
      [].
Proof. vm_compute. reflexivity. Qed.

Example scenario_think :
  fst (extract_function_call_json_from_qwen
         (Fragments [jlit "<think>reasoning</think><tool_call>{'name':'X','arguments':{}}</tool_call>"])
         true true)
  = WithMessage (value_of_call {| name := lit "X"; arguments := [] |})
      (lit "reasoning").
Proof. vm_compute. reflexivity. Qed.

Example scenario_blank_input :
  fst (extract_function_call_json (Fragments [lit "  "; lit " "]) true true)
  = WithMessage VNone (lit "   ")
  /\ fst (extract_function_call_json_from_qwen (Fragments [lit "  "; lit " "]) true true)
     = WithMessage VNone (lit "   ").
Proof. vm_compute. split; reflexivity. Qed.

Example scenario_malformed_tag_falls_through :
  fst (extract_function_call_json_from_qwen
         (Fragments [jlit "<tool_call>{'name': </tool_call>[TOOL_CALLS]{'name': 'f', 'arguments': {}}</s>"])
         true true)
  = WithMessage (value_of_call {| name := lit "f"; arguments := [] |})
      (jlit "<tool_call>{'name': </tool_call>").
Proof. vm_compute. reflexivity. Qed.

Example scenario_missing_required :
  evaluate_function_call
    {| tool_name := lit "f";
       properties := [(lit "a", {| type := lit "string"; required := Some true |});
                      (lit "b", {| type := lit "string"; required := Some true |})] |}
    {| name := lit "f"; arguments := [(lit "a", VStr (lit "x"))] |}
  = (false, [Text (lit "Missing required parameters: "); Field (ShowStrList [lit "b"])]).
Proof. reflexivity. Qed.

Example scenario_two_mismatches :
  evaluate_function_call
    {| tool_name := lit "f";
       properties := [(lit "a", {| type := lit "string"; required := None |});
                      (lit "b", {| type := lit "array"; required := None |})] |}
    {| name := lit "f"; arguments := [(lit "a", VInt 1); (lit "b", VNone)] |}
  = (false, [Text (lit "Type mismatches: ");
             Field (ShowTypeMismatches [(lit "a", lit "string", lit "int");
                                        (lit "b", lit "array", lit "NoneType")])]).
Proof. reflexivity. Qed.

Example scenario_value_mismatch :
  compare_function_calls
    {| name := lit "f"; arguments := [(lit "x", VInt 1)] |}
    {| name := lit "f"; arguments := [(lit "x", VInt 2)] |} true true
  = Return (false, [Text (lit "Argument values do not match: ");
                    Field (ShowValueMismatches [(lit "x", VInt 1, VInt 2)])]).
Proof. reflexivity. Qed.

Example scenario_key_mismatch :
  compare_function_calls
    {| name := lit "f"; arguments := [(lit "x", VInt 1)] |}
    {| name := lit "f"; arguments := [(lit "y", VInt 1)] |} true true
  = Return (false,
            [Text (lit "Argument keys do not match. Missing in predicted: ");
             Field (ShowStrSet [lit "y"]);
             Text (lit ", Missing in ground truth: ");
             Field (ShowStrSet [lit "x"])]).
Proof. reflexivity. Qed.

(* ================================================================== *)
(** * Further properties of [evaluate_function_call] *)
(* ================================================================== *)

Lemma dict_mem_iff {A : Type} (d : list (str * A)) (k : str) :
  PyDict.mem k d = true <-> In k (PyDict.keys d).
Proof.
  split; [| apply dict_mem_keys].
  unfold PyDict.mem. destruct (PyDict.get k d) as [v |] eqn:G; [| discriminate].
  intros _. apply dict_get_in in G. apply in_map_iff. exists (k, v). auto.
Qed.

Lemma check_arguments_exact (valid_params : list (str * property)) (items : dict) :
  first_unsupported valid_params items = None ->
  forall invalid_params type_mismatches,
    check_arguments valid_params items invalid_params type_mismatches
    = inr (invalid_params ++ unknown_arguments valid_params items,
           type_mismatches ++ expected_mismatches valid_params items).
Proof.
  induction items as [| [param value] items IH]; intros U inv mism.
  - cbn. rewrite !app_nil_r. reflexivity.
  - cbn [first_unsupported] in U.
    cbn [check_arguments expected_mismatches flat_map fst snd].
    unfold unknown_arguments, PyDict.keys. cbn [List.map fst List.filter].
    unfold PyDict.mem in *.
    destruct (PyDict.get param valid_params) as [p |] eqn:G.
    + destruct (PyDict.get (type p) type_map) as [cls |] eqn:T; [| discriminate].
      cbn [negb].
      destruct (isinstance value cls); cbn [negb]; rewrite (IH U).
      * reflexivity.
      * rewrite <- app_assoc. reflexivity.
    + cbn [negb]. rewrite (IH U), <- app_assoc. reflexivity.
Qed.

(** What the loop of [evaluate_function_call] amounts to, check by check. *)
Lemma evaluate_function_call_unfold (td : tool_definition) (fc : function_call) :
  evaluate_function_call td fc
  = if negb (PyStr.eqb (tool_name td) (name fc)) then name_mismatch
    else if nonempty (missing_params td fc)
         then missing_required (missing_params td fc)
    else match first_unsupported (properties td) (arguments fc) with
         | Some expected_type => unsupported expected_type
         | None =>
             if nonempty (unknown_arguments (properties td) (arguments fc))
             then invalid_parameters
                    (unknown_arguments (properties td) (arguments fc))
             else if nonempty (expected_mismatches (properties td) (arguments fc))
                  then type_mismatch
                         (expected_mismatches (properties td) (arguments fc))
             else call_is_valid
         end.
Proof.
  unfold evaluate_function_call.
  destruct (negb (PyStr.eqb (tool_name td) (name fc))); [reflexivity |].
  cbv zeta. destruct (nonempty (missing_params td fc)); [reflexivity |].
  pose proof (check_arguments_spec (properties td) (arguments fc) [] []) as S.
  destruct (first_unsupported (properties td) (arguments fc)) eqn:U.
  - rewrite S. reflexivity.
  - rewrite (check_arguments_exact _ _ U). reflexivity.
Qed.

(** X1.  The verdict of [evaluate_function_call] is the first that applies
    of: the names differ; some required parameters are missing, which are
    listed; a known argument has a declared type outside [type_map], the
    first such type being named; some arguments are unknown to the schema,
    which are listed; some values are not of the declared class, which
    are listed with the declared type and the class of the value; the call
    is valid.  Each list is complete and in the order of iteration. *)
Theorem evaluate_function_call_decision_list (td : tool_definition) (fc : function_call) :
  evaluate_function_call td fc
  = if negb (PyStr.eqb (tool_name td) (name fc)) then name_mismatch
    else if nonempty (missing_params td fc)
         then missing_required (missing_params td fc)
    else match first_unsupported (properties td) (arguments fc) with
         | Some expected_type => unsupported expected_type
         | None =>
             if nonempty (unknown_arguments (properties td) (arguments fc))
             then invalid_parameters
                    (unknown_arguments (properties td) (arguments fc))
             else if nonempty (expected_mismatches (properties td) (arguments fc))
                  then type_mismatch
                         (expected_mismatches (properties td) (arguments fc))
             else call_is_valid
         end.
Proof. exact (evaluate_function_call_unfold td fc). Qed.

Lemma missing_params_iff (td : tool_definition) (fc : function_call) (k : str) :
  In k (missing_params td fc)
  <-> (exists p, In (k, p) (properties td) /\ is_required p = true)
      /\ PyDict.mem k (arguments fc) = false.
Proof.
  unfold missing_params, required_params.
  rewrite filter_In, in_map_iff, negb_true_iff. split.
  - intros [[[k' p] [E I]] M]. cbn in E. subst k'.
    apply filter_In in I as [I R]. split; [exists p; auto | exact M].
  - intros [[p [I R]] M]. split; [| exact M].
    exists (k, p). split; [reflexivity |]. apply filter_In. auto.
Qed.

Lemma nonempty_false {A : Type} (l : list A) : nonempty l = false <-> l = [].
Proof. destruct l; split; intros; (reflexivity || discriminate). Qed.

Lemma first_unsupported_none (valid_params : list (str * property)) (items : dict) :
  first_unsupported valid_params items = None
  <-> (forall k v p, In (k, v) items -> PyDict.get k valid_params = Some p ->
                     PyDict.mem (type p) type_map = true).
Proof.
  induction items as [| [k0 v0] items IH]; cbn [first_unsupported].
  - split; [intros _ k v p [] | reflexivity].
  - split.
    + intros H k v p [[= -> ->] | I] G.
      * rewrite G in H. destruct (PyDict.mem (type p) type_map);
          [reflexivity | discriminate].
      * destruct (PyDict.get k0 valid_params) as [p0 |];
          [destruct (PyDict.mem (type p0) type_map); [| discriminate] |];
          apply (proj1 IH H k v p I G).
    + intros H.
      destruct (PyDict.get k0 valid_params) as [p0 |] eqn:G.
      * rewrite (H k0 v0 p0 (or_introl eq_refl) G).
        apply IH. intros k v p I. apply (H k v p). right; exact I.
      * apply IH. intros k v p I. apply (H k v p). right; exact I.
Qed.

Lemma unknown_arguments_nil (valid_params : list (str * property)) (items : dict) :
  unknown_arguments valid_params items = []
  <-> (forall k v, In (k, v) items -> PyDict.mem k valid_params = true).
Proof.
  unfold unknown_arguments, PyDict.keys.
  induction items as [| [k0 v0] items IH]; cbn [List.map List.filter fst].
  - split; [intros _ k v [] | reflexivity].
  - destruct (PyDict.mem k0 valid_params) eqn:M; cbn [negb].
    + rewrite IH. split.
      * intros H k v [[= -> ->] | I]; [exact M | apply (H k v I)].
      * intros H k v I. apply (H k v). right; exact I.
    + split; [discriminate |]. intros H.
      rewrite (H k0 v0 (or_introl eq_refl)) in M. discriminate.
Qed.

Lemma expected_mismatches_nil (valid_params : list (str * property)) (items : dict) :
  expected_mismatches valid_params items = []
  <-> (forall k v p cls, In (k, v) items -> PyDict.get k valid_params = Some p ->
                         PyDict.get (type p) type_map = Some cls ->
                         isinstance v cls = true).
Proof.
  unfold expected_mismatches.
  induction items as [| [k0 v0] items IH]; cbn [flat_map fst snd].
  - split; [intros _ k v p cls [] | reflexivity].
  - split.
    + intros H. apply app_eq_nil in H as [H0 H].
      intros k v p cls [[= -> ->] | I] G T.
      * rewrite G, T in H0. destruct (isinstance v cls); [reflexivity | discriminate].
      * apply (proj1 IH H k v p cls I G T).
    + intros H.
      assert (flat_map
                (fun kv =>
                   match PyDict.get (fst kv) valid_params with
                   | Some p =>
                       match PyDict.get (type p) type_map with
                       | Some cls =>
                           if isinstance (snd kv) cls then []
                           else [(fst kv, type p, type_name (type_of (snd kv)))]
                       | None => []
                       end
                   | None => []
                   end) items = []) as E
        by (apply IH; intros k v p cls I; apply H; right; exact I).
      rewrite E, app_nil_r.
      destruct (PyDict.get k0 valid_params) as [p |] eqn:G; [| reflexivity].
      destruct (PyDict.get (type p) type_map) as [cls |] eqn:T; [| reflexivity].
      rewrite (H k0 v0 p cls (or_introl eq_refl) G T). reflexivity.
Qed.

(** When [evaluate_function_call] answers that the call is valid. *)
Lemma valid_verdict_iff (td : tool_definition) (fc : function_call) :
  (evaluate_function_call td fc = call_is_valid
   <-> tool_name td = name fc
       /\ (forall k p, In (k, p) (properties td) -> is_required p = true ->
                       In k (PyDict.keys (arguments fc)))
       /\ (forall k v, In (k, v) (arguments fc) ->
             exists p cls,
               PyDict.get k (properties td) = Some p
               /\ PyDict.get (type p) type_map = Some cls
               /\ isinstance v cls = true))
  /\ (fst (evaluate_function_call td fc) = true
      <-> evaluate_function_call td fc = call_is_valid).
Proof.
  rewrite evaluate_function_call_unfold.
  destruct (PyStr.eqb (tool_name td) (name fc)) eqn:N; cbn [negb].
  2:{ apply str_eqb_neq in N. split; split; try discriminate. intros [E _]. contradiction. }
  apply str_eqb_eq in N.
  destruct (nonempty (missing_params td fc)) eqn:M.
  { split; split; try discriminate. intros (_ & R & _). exfalso.
    destruct (missing_params td fc) as [| k l] eqn:E; [discriminate |].
    assert (In k (missing_params td fc)) as I by (rewrite E; left; reflexivity).
    apply missing_params_iff in I as [[p [I Rq]] Mk].
    pose proof (R k p I Rq) as Ik. apply dict_mem_iff in Ik. congruence. }
  apply nonempty_false in M.
  destruct (first_unsupported (properties td) (arguments fc)) eqn:U.
  { split; split; try discriminate. intros (_ & _ & T). exfalso.
    assert (first_unsupported (properties td) (arguments fc) = None) as X; [| congruence].
    apply first_unsupported_none. intros k v p I G.
    destruct (T k v I) as (p' & cls & G' & T' & _).
    unfold PyDict.mem. rewrite G in G'. injection G' as <-. rewrite T'. reflexivity. }
  destruct (nonempty (unknown_arguments (properties td) (arguments fc))) eqn:K.
  { split; split; try discriminate. intros (_ & _ & T). exfalso.
    assert (unknown_arguments (properties td) (arguments fc) = []) as X;
      [| rewrite X in K; discriminate].
    apply unknown_arguments_nil. intros k v I.
    destruct (T k v I) as (p' & cls & G' & _). unfold PyDict.mem. rewrite G'. reflexivity. }
  apply nonempty_false in K.
  destruct (nonempty (expected_mismatches (properties td) (arguments fc))) eqn:X.
  { split; split; try discriminate. intros (_ & _ & T). exfalso.
    assert (expected_mismatches (properties td) (arguments fc) = []) as Y;
      [| rewrite Y in X; discriminate].
    apply expected_mismatches_nil. intros k v p cls I G Tm.
    destruct (T k v I) as (p' & cls' & G' & T' & Is). congruence. }
  apply nonempty_false in X.
  split; split; try reflexivity. intros _. split; [exact N | split].
  - intros k p I R. apply dict_mem_iff.
    destruct (PyDict.mem k (arguments fc)) eqn:Mk; [reflexivity | exfalso].
    assert (In k (missing_params td fc)) as Y
      by (apply missing_params_iff; split; [exists p; auto | exact Mk]).
    rewrite M in Y. exact Y.
  - intros k v I.
    pose proof (proj1 (unknown_arguments_nil _ _) K k v I) as Mk.
    unfold PyDict.mem in Mk.
    destruct (PyDict.get k (properties td)) as [p |] eqn:G; [| discriminate].
    pose proof (proj1 (first_unsupported_none _ _) U k v p I G) as Mt.
    unfold PyDict.mem in Mt.
    destruct (PyDict.get (type p) type_map) as [cls |] eqn:T; [| discriminate].
    exists p, cls. split; [reflexivity | split; [exact T |]].
    apply (proj1 (expected_mismatches_nil _ _) X k v p cls I G T).
Qed.

(** X2.  A call is reported valid exactly when its name is the tool's,
    every parameter the schema requires is among its arguments, and every
    argument is a parameter of the schema, declared with one of the six
    types of [type_map], whose class the value is an instance of.  The
    flag of the verdict is [True] for that verdict alone. *)
Theorem evaluate_function_call_valid_iff (td : tool_definition) (fc : function_call) :
  (evaluate_function_call td fc = call_is_valid
   <-> tool_name td = name fc
       /\ (forall k p, In (k, p) (properties td) -> is_required p = true ->
                       In k (PyDict.keys (arguments fc)))
       /\ (forall k v, In (k, v) (arguments fc) ->
             exists p cls,
               PyDict.get k (properties td) = Some p
               /\ PyDict.get (type p) type_map = Some cls
               /\ isinstance v cls = true))
  /\ (fst (evaluate_function_call td fc) = true
      <-> evaluate_function_call td fc = call_is_valid).
Proof. exact (valid_verdict_iff td fc). Qed.

(** X3.  When the name matches and a parameter the schema requires is not
    among the arguments, the verdict is the list of the missing required
    parameters, whatever else is wrong with the call (unknown arguments,
    unsupported or mismatched types).  The list holds exactly the required
    parameters that are not arguments. *)
Theorem missing_required_comes_first (td : tool_definition) (fc : function_call)
    (k : str) (p : property) :
  tool_name td = name fc ->
  In (k, p) (properties td) ->
  is_required p = true ->
  ~ In k (PyDict.keys (arguments fc)) ->
  evaluate_function_call td fc = missing_required (missing_params td fc)
  /\ In k (missing_params td fc)
  /\ (forall k', In k' (missing_params td fc)
                 <-> (exists p', In (k', p') (properties td) /\ is_required p' = true)
                     /\ ~ In k' (PyDict.keys (arguments fc))).
Proof.
  intros N I R A.
  assert (forall k', PyDict.mem k' (arguments fc) = false
                     <-> ~ In k' (PyDict.keys (arguments fc))) as F.
  { intros k'. rewrite <- dict_mem_iff.
    destruct (PyDict.mem k' (arguments fc)); split; congruence. }
  assert (In k (missing_params td fc)) as Ik
    by (apply missing_params_iff; split; [exists p; auto | apply F, A]).
  split; [| split; [exact Ik |]].
  - rewrite evaluate_function_call_unfold, N, str_eqb_refl. cbn [negb].
    destruct (missing_params td fc); [destruct Ik | reflexivity].
  - intros k'. rewrite missing_params_iff, F. reflexivity.
Qed.

Lemma missing_required_comes_first_witness :
  let td := {| tool_name := lit "Tool_RAG";
               properties := [(lit "description", {| type := lit "text"; required := Some true |});
                              (lit "limit", {| type := lit "integer"; required := Some true |});
                              (lit "offset", {| type := lit "integer"; required := None |})] |} in
  let fc := {| name := lit "Tool_RAG";
               arguments := [(lit "top_k", VInt 3); (lit "description", VNone)] |} in
  evaluate_function_call td fc = missing_required [lit "limit"].
Proof.
  destruct (missing_required_comes_first
     {| tool_name := lit "Tool_RAG";
        properties := [(lit "description", {| type := lit "text"; required := Some true |});
                       (lit "limit", {| type := lit "integer"; required := Some true |});
                       (lit "offset", {| type := lit "integer"; required := None |})] |}
     {| name := lit "Tool_RAG";
        arguments := [(lit "top_k", VInt 3); (lit "description", VNone)] |}
     (lit "limit") {| type := lit "integer"; required := Some true |})
    as (H & _ & _).
  - reflexivity.
  - right; left; reflexivity.
  - reflexivity.
  - intros [E | [E | []]]; discriminate E.
  - cbv zeta. rewrite H. reflexivity.
Defined.

Lemma bool_eq_iff (a b : bool) : (a = true <-> b = true) -> a = b.
Proof. destruct a, b; intros [H1 H2]; auto; symmetry; auto. Qed.

(** X4.  Whether a call is accepted does not depend on the order of its
    arguments: the flag of the verdict is the same for every permutation
    of them.  (The reason may differ: its lists follow the order.) *)
Theorem evaluate_function_call_order_independent (td : tool_definition)
    (fname : str) (args args' : dict) :
  Permutation args args' ->
  fst (evaluate_function_call td {| name := fname; arguments := args |})
  = fst (evaluate_function_call td {| name := fname; arguments := args' |}).
Proof.
  intros P. apply bool_eq_iff.
  rewrite !(proj2 (valid_verdict_iff td _)).
  rewrite !(proj1 (valid_verdict_iff td _)). cbn [name arguments].
  assert (forall a b : dict, Permutation a b ->
            (forall k p, In (k, p) (properties td) -> is_required p = true ->
                         In k (PyDict.keys a))
            /\ (forall k v, In (k, v) a ->
                  exists p cls,
                    PyDict.get k (properties td) = Some p
                    /\ PyDict.get (type p) type_map = Some cls
                    /\ isinstance v cls = true) ->
            (forall k p, In (k, p) (properties td) -> is_required p = true ->
                         In k (PyDict.keys b))
            /\ (forall k v, In (k, v) b ->
                  exists p cls,
                    PyDict.get k (properties td) = Some p
                    /\ PyDict.get (type p) type_map = Some cls
                    /\ isinstance v cls = true)) as A.
  { intros a b Pab [R T]. split.
    - intros k p I Rq. unfold PyDict.keys.
      apply (Permutation_in _ (Permutation_map fst Pab)). apply (R k p I Rq).
    - intros k v I. apply T. apply (Permutation_in _ (Permutation_sym Pab) I). }
  split; intros (N & H); (split; [exact N |]).
  - apply (A args args' P H).
  - apply (A args' args (Permutation_sym P) H).
Qed.

Lemma evaluate_function_call_order_independent_witness :
  let td := {| tool_name := lit "f";
               properties := [(lit "a", {| type := lit "string"; required := Some true |});
                              (lit "b", {| type := lit "number"; required := None |})] |} in
  fst (evaluate_function_call td
         {| name := lit "f"; arguments := [(lit "a", VInt 1); (lit "b", VInt 2)] |})
  = fst (evaluate_function_call td
           {| name := lit "f"; arguments := [(lit "b", VInt 2); (lit "a", VInt 1)] |}).
Proof.
  apply (evaluate_function_call_order_independent
           {| tool_name := lit "f";
              properties := [(lit "a", {| type := lit "string"; required := Some true |});
                             (lit "b", {| type := lit "number"; required := None |})] |}
           (lit "f")
           [(lit "a", VInt 1); (lit "b", VInt 2)]
           [(lit "b", VInt 2); (lit "a", VInt 1)]).
  apply perm_swap.
Defined.

Lemma type_map_rejects_None (t : str) (cls : pytype) :
  PyDict.get t type_map = Some cls -> isinstance VNone cls = false.
Proof.
  intros G. apply dict_get_in in G.
  repeat (destruct G as [[= <- <-] | G]; [reflexivity |]). destruct G.
Qed.

(** X5.  [None] (the JSON [null]) is accepted for no parameter: a call one
    of whose arguments is [None] is never reported valid. *)
Theorem none_argument_is_never_valid (td : tool_definition) (fc : function_call)
    (k : str) :
  In (k, VNone) (arguments fc) ->
  fst (evaluate_function_call td fc) = false.
Proof.
  intros I. destruct (fst (evaluate_function_call td fc)) eqn:E; [| reflexivity].
  apply valid_verdict_iff in E.
  apply valid_verdict_iff in E as (_ & _ & T).
  destruct (T k VNone I) as (p & cls & _ & Tm & Is).
  rewrite (type_map_rejects_None _ _ Tm) in Is. discriminate.
Qed.

Lemma none_argument_is_never_valid_witness :
  fst (evaluate_function_call
         {| tool_name := lit "Tool_RAG";
            properties := [(lit "description", {| type := lit "string"; required := Some true |});
                           (lit "limit", {| type := lit "integer"; required := None |})] |}
         {| name := lit "Tool_RAG";
            arguments := [(lit "description", VStr (lit "tools")); (lit "limit", VNone)] |})
  = false.
Proof.
  apply (none_argument_is_never_valid
           {| tool_name := lit "Tool_RAG";
              properties := [(lit "description", {| type := lit "string"; required := Some true |});
                             (lit "limit", {| type := lit "integer"; required := None |})] |}
           {| name := lit "Tool_RAG";
              arguments := [(lit "description", VStr (lit "tools")); (lit "limit", VNone)] |}
           (lit "limit")).
  right; left; reflexivity.
Defined.

(* ================================================================== *)
(** * Properties of [evaluate_function_call_from_toolbox] *)
(* ================================================================== *)

(** X7.  With a toolbox that answers each tool under the tool's own name,
    the verdict is "Tool not found." when the toolbox has no tool of the
    name of the call, and otherwise the verdict of [evaluate_function_call]
    on the tool found, which is never "Function name does not match.". *)
Theorem from_toolbox_never_reports_a_name_mismatch
    (get_one_tool_by_one_name : str -> option tool_definition) (fc : function_call) :
  (forall n td, get_one_tool_by_one_name n = Some td -> tool_name td = n) ->
  evaluate_function_call_from_toolbox get_one_tool_by_one_name fc <> name_mismatch
  /\ (evaluate_function_call_from_toolbox get_one_tool_by_one_name fc = tool_not_found
      <-> get_one_tool_by_one_name (name fc) = None).
Proof.
  intros H. unfold evaluate_function_call_from_toolbox.
  destruct (get_one_tool_by_one_name (name fc)) as [td |] eqn:G.
  - apply H in G. rewrite evaluate_function_call_unfold, G, str_eqb_refl.
    cbn [negb].
    destruct (nonempty (missing_params td fc));
      [split; [discriminate | split; discriminate] |].
    destruct (first_unsupported (properties td) (arguments fc));
      [split; [discriminate | split; discriminate] |].
    destruct (nonempty (unknown_arguments (properties td) (arguments fc)));
      [split; [discriminate | split; discriminate] |].
    destruct (nonempty (expected_mismatches (properties td) (arguments fc)));
      split; (discriminate || (split; discriminate)).
  - split; [discriminate | split; reflexivity].
Qed.

Lemma from_toolbox_never_reports_a_name_mismatch_witness :
  let tool := {| tool_name := lit "Tool_RAG";
                 properties := [(lit "limit", {| type := lit "integer"; required := None |})] |} in
  let toolbox := fun n => if PyStr.eqb n (lit "Tool_RAG") then Some tool else None in
  evaluate_function_call_from_toolbox toolbox
    {| name := lit "Tool_RAG"; arguments := [(lit "limit", VInt 1)] |}
  <> name_mismatch
  /\ evaluate_function_call_from_toolbox toolbox
       {| name := lit "Other"; arguments := [] |} = tool_not_found.
Proof.
  pose (tool := {| tool_name := lit "Tool_RAG";
                   properties := [(lit "limit", {| type := lit "integer"; required := None |})] |}).
  pose (toolbox := fun n => if PyStr.eqb n (lit "Tool_RAG") then Some tool else None).
  assert (forall n td, toolbox n = Some td -> tool_name td = n) as H.
  { intros n td. unfold toolbox. destruct (PyStr.eqb n (lit "Tool_RAG")) eqn:E;
      [| discriminate]. apply str_eqb_eq in E. intros [= <-]. symmetry; exact E. }
  split.
  - apply (from_toolbox_never_reports_a_name_mismatch toolbox
             {| name := lit "Tool_RAG"; arguments := [(lit "limit", VInt 1)] |} H).
  - apply (from_toolbox_never_reports_a_name_mismatch toolbox
             {| name := lit "Other"; arguments := [] |} H).
    reflexivity.
Defined.

(* ================================================================== *)
(** * Further properties of [compare_function_calls] *)
(* ================================================================== *)

Lemma collect_mismatches_exact (pred_arguments gt_arguments : dict) (keys : list str) :
  incl keys (PyDict.keys pred_arguments) ->
  forall acc,
    collect_mismatches pred_arguments gt_arguments keys acc
    = match first_missing_key gt_arguments keys with
      | Some key => Raise (KeyError key)
      | None => Return (acc ++ value_mismatches pred_arguments gt_arguments keys)
      end.
Proof.
  unfold first_missing_key.
  induction keys as [| key keys IH]; intros I acc;
    [cbn; rewrite app_nil_r; reflexivity |].
  cbn [collect_mismatches value_mismatches flat_map List.find]. unfold subscript.
  pose proof (dict_mem_keys pred_arguments key (I key (or_introl eq_refl))) as M.
  unfold PyDict.mem in *.
  destruct (PyDict.get key pred_arguments) as [p |]; [| discriminate].
  destruct (PyDict.get key gt_arguments) as [g |]; cbn [bind negb]; [| reflexivity].
  assert (incl keys (PyDict.keys pred_arguments)) as I'
    by (intros k Ik; apply I; right; exact Ik).
  destruct (py_ne p g); rewrite (IH I');
    destruct (List.find _ keys); try reflexivity.
  rewrite <- app_assoc. reflexivity.
Qed.

(** What [compare_function_calls] amounts to, check by check. *)
Lemma compare_function_calls_unfold (pred gt : function_call)
    (compare_arguments compare_value : bool) :
  compare_function_calls pred gt compare_arguments compare_value
  = if negb (PyStr.eqb (name pred) (name gt)) then Return names_differ
    else if compare_arguments && key_sets_differ (arguments pred) (arguments gt)
         then Return (keys_differ (arguments pred) (arguments gt))
    else if compare_value then
      match first_missing_key (arguments gt) (PyDict.keys (arguments pred)) with
      | Some key => Raise (KeyError key)
      | None =>
          let mismatched :=
            value_mismatches (arguments pred) (arguments gt)
              (PyDict.keys (arguments pred)) in
          Return (if nonempty mismatched then values_differ mismatched
                  else calls_match)
      end
    else Return calls_match.
Proof.
  unfold compare_function_calls. cbv zeta.
  destruct (negb (PyStr.eqb (name pred) (name gt))); [reflexivity |].
  destruct (compare_arguments && key_sets_differ (arguments pred) (arguments gt));
    [reflexivity |].
  destruct compare_value; [| reflexivity].
  rewrite collect_mismatches_exact by apply incl_refl.
  destruct (first_missing_key (arguments gt) (PyDict.keys (arguments pred)));
    [reflexivity |].
  cbn [bind app].
  destruct (nonempty (value_mismatches (arguments pred) (arguments gt)
                        (PyDict.keys (arguments pred)))); reflexivity.
Qed.

(** X8.  The outcome of [compare_function_calls] is the first that applies
    of: the names differ; with [compare_arguments] on, the key sets differ;
    with [compare_value] on, [KeyError] for the first key of the predicted
    arguments that the reference lacks, else the list of all the keys whose
    two values are not [==], in the order of the predicted arguments; the
    calls match. *)
Theorem compare_function_calls_decision_list (pred gt : function_call)
    (compare_arguments compare_value : bool) :
  compare_function_calls pred gt compare_arguments compare_value
  = if negb (PyStr.eqb (name pred) (name gt)) then Return names_differ
    else if compare_arguments && key_sets_differ (arguments pred) (arguments gt)
         then Return (keys_differ (arguments pred) (arguments gt))
    else if compare_value then
      match first_missing_key (arguments gt) (PyDict.keys (arguments pred)) with
      | Some key => Raise (KeyError key)
      | None =>
          let mismatched :=
            value_mismatches (arguments pred) (arguments gt)
              (PyDict.keys (arguments pred)) in
          Return (if nonempty mismatched then values_differ mismatched
                  else calls_match)
      end
    else Return calls_match.
Proof. exact (compare_function_calls_unfold pred gt compare_arguments compare_value). Qed.

Lemma first_missing_key_some (gt_arguments : dict) (keys : list str) (key : str) :
  first_missing_key gt_arguments keys = Some key ->
  In key keys /\ ~ In key (PyDict.keys gt_arguments).
Proof.
  unfold first_missing_key. intros H. apply find_some in H as [I M].
  split; [exact I |]. rewrite <- dict_mem_iff. apply negb_true_iff in M. congruence.
Qed.

Lemma first_missing_key_none (gt_arguments : dict) (keys : list str) :
  first_missing_key gt_arguments keys = None
  <-> incl keys (PyDict.keys gt_arguments).
Proof.
  unfold first_missing_key. split.
  - intros H k I. apply dict_mem_iff.
    pose proof (find_none _ _ H k I) as M. apply negb_false_iff in M. exact M.
  - intros H. destruct (List.find _ keys) as [k |] eqn:F; [| reflexivity].
    apply find_some in F as [I M]. apply H, dict_mem_iff in I.
    rewrite I in M. discriminate.
Qed.

Lemma key_sets_differ_false (a b : dict) :
  key_sets_differ a b = false
  <-> (forall k, In k (PyDict.keys a) <-> In k (PyDict.keys b)).
Proof.
  unfold key_sets_differ. rewrite negb_false_iff, andb_true_iff, !forallb_forall.
  split.
  - intros [H1 H2] k. split; intros I; apply dict_mem_iff; auto.
  - intros H. split; intros k I; apply dict_mem_iff, H, I.
Qed.


Lemma value_mismatches_nil (pred_arguments gt_arguments : dict) (keys : list str) :
  value_mismatches pred_arguments gt_arguments keys = []
  <-> (forall k p g, In k keys -> PyDict.get k pred_arguments = Some p ->
                     PyDict.get k gt_arguments = Some g -> py_eq p g = true).
Proof.
  unfold value_mismatches. induction keys as [| key keys IH]; cbn [flat_map].
  - split; [intros _ k p g [] | reflexivity].
  - split.
    + intros H. apply app_eq_nil in H as [H0 H].
      intros k p g [<- | I] P G.
      * rewrite P, G in H0. unfold py_ne in H0.
        destruct (py_eq p g); [reflexivity | discriminate].
      * apply (proj1 IH H k p g I P G).
    + intros H.
      rewrite (proj2 IH) by (intros k p g I; apply H; right; exact I).
      rewrite app_nil_r.
      destruct (PyDict.get key pred_arguments) as [p |] eqn:P; [| reflexivity].
      destruct (PyDict.get key gt_arguments) as [g |] eqn:G; [| reflexivity].
      unfold py_ne. rewrite (H key p g (or_introl eq_refl) P G). reflexivity.
Qed.

(** When [compare_function_calls], with both flags on, answers that the calls match. *)
Lemma match_verdict_iff (pred gt : function_call) :
  compare_function_calls pred gt true true = Return calls_match
  <-> name pred = name gt
      /\ (forall k, In k (PyDict.keys (arguments pred))
                    <-> In k (PyDict.keys (arguments gt)))
      /\ (forall k p g, PyDict.get k (arguments pred) = Some p ->
                        PyDict.get k (arguments gt) = Some g -> py_eq p g = true).
Proof.
  rewrite compare_function_calls_unfold.
  destruct (PyStr.eqb (name pred) (name gt)) eqn:N; cbn [negb andb].
  2:{ apply str_eqb_neq in N. split; [discriminate | intros [E _]; contradiction]. }
  apply str_eqb_eq in N.
  destruct (key_sets_differ (arguments pred) (arguments gt)) eqn:K.
  { split; [discriminate | intros (_ & S & _)].
    apply key_sets_differ_false in S. congruence. }
  pose proof (proj1 (key_sets_differ_false _ _) K) as S.
  assert (first_missing_key (arguments gt) (PyDict.keys (arguments pred)) = None) as F
    by (apply first_missing_key_none; intros k I; apply S, I).
  rewrite F. cbv zeta.
  destruct (nonempty (value_mismatches (arguments pred) (arguments gt)
                        (PyDict.keys (arguments pred)))) eqn:V.
  - split; [discriminate | intros (_ & _ & E)]. exfalso.
    assert (value_mismatches (arguments pred) (arguments gt)
              (PyDict.keys (arguments pred)) = []) as X;
      [| rewrite X in V; discriminate].
    apply value_mismatches_nil. intros k p g _. apply E.
  - apply nonempty_false in V. split; [intros _ | reflexivity].
    split; [exact N | split; [exact S |]].
    intros k p g P G. apply (proj1 (value_mismatches_nil _ _ _) V k p g); auto.
    apply dict_mem_iff. unfold PyDict.mem. rewrite P. reflexivity.
Qed.

(** X10.  With both flags on, two calls are reported to match exactly when
    they have the same name and the same set of argument keys, and under
    every key the two values are [==]. *)
Theorem compare_function_calls_match_iff (pred gt : function_call) :
  compare_function_calls pred gt true true = Return calls_match
  <-> name pred = name gt
      /\ (forall k, In k (PyDict.keys (arguments pred))
                    <-> In k (PyDict.keys (arguments gt)))
      /\ (forall k p g, PyDict.get k (arguments pred) = Some p ->
                        PyDict.get k (arguments gt) = Some g -> py_eq p g = true).
Proof. exact (match_verdict_iff pred gt). Qed.

(** X11.  With [compare_arguments] off and [compare_value] on, two calls of
    the same name are reported to match exactly when every argument of the
    predicted call is an argument of the reference with an [==] value: the
    arguments that the reference alone has are not looked at. *)
Theorem compare_values_only_match_iff (pred gt : function_call) :
  compare_function_calls pred gt false true = Return calls_match
  <-> name pred = name gt
      /\ (forall k p, PyDict.get k (arguments pred) = Some p ->
            exists g, PyDict.get k (arguments gt) = Some g /\ py_eq p g = true).
Proof.
  rewrite compare_function_calls_unfold.
  destruct (PyStr.eqb (name pred) (name gt)) eqn:N; cbn [negb andb].
  2:{ apply str_eqb_neq in N. split; [discriminate | intros [E _]; contradiction]. }
  apply str_eqb_eq in N.
  destruct (first_missing_key (arguments gt) (PyDict.keys (arguments pred))) as [k |] eqn:F.
  { split; [discriminate | intros (_ & E)]. exfalso.
    apply first_missing_key_some in F as [I M].
    apply dict_mem_iff in I. unfold PyDict.mem in I.
    destruct (PyDict.get k (arguments pred)) as [p |] eqn:P; [| discriminate].
    destruct (E k p P) as (g & G & _). apply M, dict_mem_iff.
    unfold PyDict.mem. rewrite G. reflexivity. }
  pose proof (proj1 (first_missing_key_none _ _) F) as S. cbv zeta.
  destruct (nonempty (value_mismatches (arguments pred) (arguments gt)
                        (PyDict.keys (arguments pred)))) eqn:V.
  - split; [discriminate | intros (_ & E)]. exfalso.
    assert (value_mismatches (arguments pred) (arguments gt)
              (PyDict.keys (arguments pred)) = []) as X;
      [| rewrite X in V; discriminate].
    apply value_mismatches_nil. intros k p g _ P G.
    destruct (E k p P) as (g' & G' & Eq). congruence.
  - apply nonempty_false in V. split; [intros _ | reflexivity].
    split; [exact N |]. intros k p P.
    assert (In k (PyDict.keys (arguments pred))) as I
      by (apply dict_mem_iff; unfold PyDict.mem; rewrite P; reflexivity).
    pose proof (S k I) as Ig. apply dict_mem_iff in Ig. unfold PyDict.mem in Ig.
    destruct (PyDict.get k (arguments gt)) as [g |] eqn:G; [| discriminate].
    exists g. split; [reflexivity |].
    apply (proj1 (value_mismatches_nil _ _ _) V k p g I P G).
Qed.

Lemma float_eqb_sym (f g : pyfloat) : PyFloat.eqb f g = PyFloat.eqb g f.
Proof.
  unfold PyFloat.eqb, SFeqb.
  destruct f as [i | s | s | s m e], g as [j | t | t | t n e']; cbn;
    try reflexivity; try (destruct s, t; reflexivity);
    try (destruct s; reflexivity); try (destruct t; reflexivity).
  change (PosDef.Pos.compare_cont Eq m n) with (Pos.compare m n).
  change (PosDef.Pos.compare_cont Eq n m) with (Pos.compare n m).
  rewrite (Z.compare_antisym e e'), (Pos.compare_antisym m n).
  destruct s, t, (Z.compare e e'), (Pos.compare m n); reflexivity.
Qed.

Lemma same_object_sym (a b : value) : same_object a b = same_object b a.
Proof.
  destruct a as [| | | [i | | |] | | |], b as [| | | [j | | |] | | |];
    try reflexivity. apply Nat.eqb_sym.
Qed.

Lemma distinct_NoDup (l : list str) : distinct l = true -> NoDup l.
Proof.
  induction l as [| k l IH]; [constructor |]. cbn [distinct].
  rewrite andb_true_iff, negb_true_iff. intros [N D]. constructor; [| apply IH, D].
  intros I. assert (existsb (PyStr.eqb k) l = true) as X; [| congruence].
  apply existsb_exists. exists k. split; [exact I | apply str_eqb_refl].
Qed.

Lemma entries_eq_iff (d e : dict) :
  entries_eq d e = true
  <-> (forall k x, In (k, x) d ->
         exists y, PyDict.get k e = Some y /\ item_eq x y = true).
Proof.
  induction d as [| [k0 x0] d IH]; cbn [entries_eq].
  - split; [intros _ k x [] | reflexivity].
  - split.
    + intros H k x [[= -> ->] | I].
      * destruct (PyDict.get k e) as [y |]; [| discriminate].
        apply andb_true_iff in H as [H _]. exists y. auto.
      * destruct (PyDict.get k0 e) as [y |]; [| discriminate].
        apply andb_true_iff in H as [_ H]. apply (proj1 IH H k x I).
    + intros H. destruct (H k0 x0 (or_introl eq_refl)) as (y & G & E).
      rewrite G, E. apply IH. intros k x I. apply H. right; exact I.
Qed.

(** On well-formed values [==] is symmetric. *)
Lemma py_eq_sym_true (a : value) :
  forall b, wf_value a = true -> wf_value b = true ->
            py_eq a b = true -> py_eq b a = true.
Proof.
  induction a as [| x | x | f | s | l IHl | d IHd] using value_nested_ind;
    intros b Wa Wb H.
  - destruct b; try discriminate; reflexivity.
  - destruct b; try discriminate; cbn in *; try exact H.
    + rewrite Z.eqb_sym; exact H.
    + rewrite Z.eqb_sym; exact H.
  - destruct b; try discriminate; cbn in *; try exact H.
    + rewrite Z.eqb_sym; exact H.
    + rewrite Z.eqb_sym; exact H.
  - destruct b; try discriminate; cbn in *; try exact H.
    rewrite float_eqb_sym; exact H.
  - destruct b; try discriminate. cbn in *. rewrite str_eqb_sym; exact H.
  - destruct b as [| | | | | m |]; try discriminate.
    rewrite py_eq_list in *. cbn [wf_value] in Wa, Wb.
    revert m Wb H. induction l as [| x l IH]; intros [| y m] Wb H;
      try discriminate; [reflexivity |].
    cbn [items_eq forallb] in *.
    apply andb_true_iff in Wa as [Wx Wl]. apply andb_true_iff in Wb as [Wy Wm].
    apply andb_true_iff in H as [Hxy H].
    inversion IHl as [| ? ? Px Pl]; subst.
    rewrite (IH Pl Wl m Wm H), andb_true_r.
    unfold item_eq in *. rewrite same_object_sym.
    apply orb_true_iff in Hxy as [S | E]; [rewrite S; reflexivity |].
    rewrite (Px y Wx Wy E). apply orb_true_r.
  - destruct b as [| | | | | | e]; try discriminate.
    rewrite py_eq_dict in *. cbn [wf_value] in Wa, Wb.
    apply andb_true_iff in Wa as [Dd Wd]. apply andb_true_iff in Wb as [De We].
    apply andb_true_iff in H as [L H].
    apply Nat.eqb_eq in L. rewrite <- L, Nat.eqb_refl. cbn [andb].
    rewrite entries_eq_iff in *.
    rewrite Forall_forall in IHd. rewrite forallb_forall in Wd, We.
    assert (incl (PyDict.keys e) (PyDict.keys d)) as I.
    { apply NoDup_length_incl.
      - apply distinct_NoDup, Dd.
      - unfold PyDict.keys. rewrite !length_map. lia.
      - intros k Ik. apply in_map_iff in Ik as [[k' x] [Ek Ix]]. cbn in Ek. subst k'.
        destruct (H k x Ix) as (y & G & _). apply dict_mem_iff.
        unfold PyDict.mem. rewrite G. reflexivity. }
    intros k y Iy.
    assert (In k (PyDict.keys d)) as Ik
      by (apply I, in_map_iff; exists (k, y); auto).
    apply in_map_iff in Ik as [[k' x] [Ek Ix]]. cbn in Ek. subst k'.
    exists x. split; [apply dict_get_distinct; assumption |].
    destruct (H k x Ix) as (y' & G & E).
    rewrite (dict_get_distinct e k y De Iy) in G. injection G as <-.
    unfold item_eq in *. rewrite same_object_sym.
    apply orb_true_iff in E as [S | E]; [rewrite S; reflexivity |].
    pose proof (IHd (k, x) Ix y (Wd (k, x) Ix) (We (k, y) Iy) E) as Eyx.
    cbn [snd] in Eyx. rewrite Eyx. apply orb_true_r.
Qed.

(** X13.  With both flags on, matching is symmetric: the predicted call
    matches the reference exactly when the reference matches the predicted
    call.  (The argument values are Python objects: within them a dict has
    each key once.) *)
Theorem compare_function_calls_symmetric (pred gt : function_call) :
  (forall k v, In (k, v) (arguments pred) -> wf_value v = true) ->
  (forall k v, In (k, v) (arguments gt) -> wf_value v = true) ->
  (compare_function_calls pred gt true true = Return calls_match
   <-> compare_function_calls gt pred true true = Return calls_match).
Proof.
  assert (forall a b : function_call,
            (forall k v, In (k, v) (arguments a) -> wf_value v = true) ->
            (forall k v, In (k, v) (arguments b) -> wf_value v = true) ->
            compare_function_calls a b true true = Return calls_match ->
            compare_function_calls b a true true = Return calls_match) as A.
  { intros a b Wa Wb. rewrite !match_verdict_iff.
    intros (N & S & V). split; [symmetry; exact N | split].
    - intros k. symmetry. apply S.
    - intros k p g P G. apply py_eq_sym_true.
      + apply (Wa k g), dict_get_in, G.
      + apply (Wb k p), dict_get_in, P.
      + apply (V k g p G P). }
  intros Wp Wg. split; apply A; assumption.
Qed.

Lemma compare_function_calls_symmetric_witness :
  let a := {| name := lit "f";
              arguments := [(lit "x", VInt 1);
                            (lit "y", VDict [(lit "u", VBool true); (lit "v", VNone)])] |} in
  let b := {| name := lit "f";
              arguments := [(lit "y", VDict [(lit "v", VNone); (lit "u", VInt 1)]);
                            (lit "x", VFloat (PyFloat.of_decimal false 10 (-1)))] |} in
  compare_function_calls a b true true = Return calls_match
  /\ compare_function_calls b a true true = Return calls_match.
Proof.
  split; [reflexivity |].
  apply (compare_function_calls_symmetric
           {| name := lit "f";
              arguments := [(lit "x", VInt 1);
                            (lit "y", VDict [(lit "u", VBool true); (lit "v", VNone)])] |}
           {| name := lit "f";
              arguments := [(lit "y", VDict [(lit "v", VNone); (lit "u", VInt 1)]);
                            (lit "x", VFloat (PyFloat.of_decimal false 10 (-1)))] |}).
  - intros k v [[= <- <-] | [[= <- <-] | []]]; reflexivity.
  - intros k v [[= <- <-] | [[= <- <-] | []]]; reflexivity.
  - reflexivity.
Defined.

(* ================================================================== *)
(** * Further properties of the extractors *)
(* ================================================================== *)

Lemma find_from_skip (c : char) (sub' pre rest : str) :
  ~ In c pre ->
  forall i, find_from (c :: sub') (pre ++ rest) i
            = find_from (c :: sub') rest (i + len pre).
Proof.
  induction pre as [| a pre IH]; intros N i.
  - cbn [app]. f_equal. unfold len. cbn. lia.
  - cbn [app find_from startswith].
    assert (N.eqb c a = false) as E
      by (apply N.eqb_neq; intros ->; apply N; left; reflexivity).
    rewrite E. cbn [andb].
    rewrite IH by (intros I; apply N; right; exact I).
    f_equal. unfold len. cbn [List.length]. lia.
Qed.

Lemma find_from_step (sub s : str) (c : char) (i : Z) :
  startswith sub (c :: s) = false ->
  find_from sub (c :: s) i = find_from sub s (i + 1).
Proof. intros H. cbn [find_from]. rewrite H. reflexivity. Qed.

Lemma find_from_end (c : char) (sub' : str) (i : Z) :
  find_from (c :: sub') [] i = -1.
Proof. reflexivity. Qed.

Lemma slice_middle (a b c : str) :
  slice (a ++ b ++ c) (Some (len a)) (Some (len a + len b)) = b.
Proof.
  unfold slice, adjust, len.
  rewrite !length_app.
  destruct (Z.of_nat (List.length a) <? 0) eqn:E1; [apply Z.ltb_lt in E1; lia |].
  destruct (Z.of_nat (List.length a) + Z.of_nat (List.length b) <? 0) eqn:E2;
    [apply Z.ltb_lt in E2; lia |].
  rewrite !Z.min_l by lia.
  replace (Z.to_nat (Z.of_nat (List.length a) + Z.of_nat (List.length b)
                     - Z.of_nat (List.length a)))
    with (List.length b) by lia.
  rewrite Nat2Z.id, skipn_app, skipn_all, Nat.sub_diag. cbn [app skipn].
  rewrite firstn_app, firstn_all, Nat.sub_diag. cbn [firstn]. apply app_nil_r.
Qed.

Lemma slice_prefix (a b : str) : slice (a ++ b) None (Some (len a)) = a.
Proof.
  rewrite slice_to by (unfold len; lia). unfold len. rewrite Nat2Z.id.
  rewrite firstn_app, firstn_all, Nat.sub_diag. cbn [firstn]. apply app_nil_r.
Qed.

(** Walks [find_from] along a text made of known characters and of parts
    free of the first character of the marker. *)
Ltac walk :=
  repeat first
    [ rewrite find_from_end
    | rewrite find_from_hit by reflexivity
    | rewrite find_from_step by reflexivity
    | rewrite find_from_skip by assumption ].

Ltac spell :=
  cbv [TOOL_CALLS END_S EOM_ID FUNCTIONCALL FUNCTIONCALL_END TOOL_CALL
       TOOL_CALL_END THINK THINK_END LT lit list_ascii_of_string List.map
       N_of_ascii N_of_digits N.add N.mul Pos.add Pos.mul Pos.succ] in *;
  cbn [app] in *.

Section ToolCallText.

Variables msg body : str.
Hypothesis msg_clean : ~ In LT msg.
Hypothesis body_clean : ~ In LT body.

Let text := msg ++ TOOL_CALL ++ body ++ TOOL_CALL_END.

Lemma tool_call_text_start : find TOOL_CALL text = len msg.
Proof. unfold find, text. spell. walk. lia. Qed.

Lemma tool_call_text_end :
  find TOOL_CALL_END text = len msg + len TOOL_CALL + len body.
Proof. unfold find, text. spell. walk. unfold len. cbn [List.length]. lia. Qed.

Lemma tool_call_text_no_think :
  find THINK text = -1 /\ find THINK_END text = -1.
Proof. unfold find, text. spell. walk. split; reflexivity. Qed.

Lemma tool_call_text_not_json : Json.loads (strip text) = None.
Proof.
  unfold text.
  replace (msg ++ TOOL_CALL ++ body ++ TOOL_CALL_END)
    with ((msg ++ TOOL_CALL ++ body ++ lit "</tool_call") ++ [62%N])
    by (rewrite <- !app_assoc; reflexivity).
  apply text_ending_with_gt_is_not_json.
Qed.

End ToolCallText.



Section ThinkText.

Variables pre thought mid body : str.
Hypothesis pre_clean : ~ In LT pre.
Hypothesis thought_clean : ~ In LT thought.
Hypothesis mid_clean : ~ In LT mid.
Hypothesis body_clean : ~ In LT body.

Let text :=
  pre ++ THINK ++ thought ++ THINK_END ++ mid ++ TOOL_CALL ++ body ++ TOOL_CALL_END.

Lemma think_text_think : find THINK text = len pre.
Proof. unfold find, text. spell. walk. lia. Qed.

Lemma think_text_think_end :
  find THINK_END text = len pre + len THINK + len thought.
Proof. unfold find, text. spell. walk. unfold len. cbn [List.length]. lia. Qed.

Lemma think_text_start :
  find TOOL_CALL text
  = len (pre ++ THINK ++ thought ++ THINK_END ++ mid).
Proof.
  unfold find, text. spell. walk. unfold len.
  rewrite !length_app. cbn [List.length]. rewrite !length_app. cbn [List.length]. lia.
Qed.

Lemma think_text_end :
  find TOOL_CALL_END text
  = len (pre ++ THINK ++ thought ++ THINK_END ++ mid) + len TOOL_CALL + len body.
Proof.
  unfold find, text. spell. walk. unfold len.
  rewrite !length_app. cbn [List.length]. rewrite !length_app. cbn [List.length]. lia.
Qed.

Lemma think_text_not_json : Json.loads (strip text) = None.
Proof.
  unfold text.
  replace (pre ++ THINK ++ thought ++ THINK_END ++ mid ++ TOOL_CALL ++ body ++ TOOL_CALL_END)
    with ((pre ++ THINK ++ thought ++ THINK_END ++ mid ++ TOOL_CALL ++ body
             ++ lit "</tool_call") ++ [62%N])
    by (rewrite <- !app_assoc; reflexivity).
  apply text_ending_with_gt_is_not_json.
Qed.

End ThinkText.



Section ToolCallsText.

Variables msg body : str.
Hypothesis msg_clean : ~ In LT msg.
Hypothesis msg_no_bracket : ~ In 91%N msg.
Hypothesis body_clean : ~ In LT body.

Lemma tool_calls_text_start (end_marker : str) :
  find TOOL_CALLS (msg ++ TOOL_CALLS ++ body ++ end_marker) = len msg.
Proof. unfold find. spell. walk. lia. Qed.

Lemma tool_calls_text_end_s :
  find END_S (msg ++ TOOL_CALLS ++ body ++ END_S)
  = len msg + len TOOL_CALLS + len body.
Proof. unfold find. spell. walk. unfold len. cbn [List.length]. lia. Qed.

Lemma tool_calls_text_eom_id :
  find END_S (msg ++ TOOL_CALLS ++ body ++ EOM_ID) = -1
  /\ find EOM_ID (msg ++ TOOL_CALLS ++ body ++ EOM_ID)
     = len msg + len TOOL_CALLS + len body.
Proof. unfold find. spell. walk. unfold len. cbn [List.length]. split; [reflexivity | lia]. Qed.

Lemma tool_calls_text_no_tool_call (end_marker : str) :
  end_marker = END_S \/ end_marker = EOM_ID ->
  find TOOL_CALL (msg ++ TOOL_CALLS ++ body ++ end_marker) = -1.
Proof. intros [-> | ->]; unfold find; spell; walk; reflexivity. Qed.

Lemma tool_calls_text_index_end (end_marker : str) :
  end_marker = END_S \/ end_marker = EOM_ID ->
  tool_calls_index_end (msg ++ TOOL_CALLS ++ body ++ end_marker)
  = len msg + len TOOL_CALLS + len body.
Proof.
  unfold tool_calls_index_end. intros [-> | ->].
  - rewrite tool_calls_text_end_s.
    destruct (len msg + len TOOL_CALLS + len body =? -1) eqn:E; [| reflexivity].
    apply Z.eqb_eq in E. unfold len in E. lia.
  - destruct tool_calls_text_eom_id as [-> ->]. reflexivity.
Qed.

Lemma tool_calls_text_not_json (end_marker : str) :
  end_marker = END_S \/ end_marker = EOM_ID ->
  Json.loads (strip (msg ++ TOOL_CALLS ++ body ++ end_marker)) = None.
Proof.
  intros [-> | ->].
  - replace (msg ++ TOOL_CALLS ++ body ++ END_S)
      with ((msg ++ TOOL_CALLS ++ body ++ lit "</s") ++ [62%N])
      by (rewrite <- !app_assoc; reflexivity).
    apply text_ending_with_gt_is_not_json.
  - replace (msg ++ TOOL_CALLS ++ body ++ EOM_ID)
      with ((msg ++ TOOL_CALLS ++ body ++ lit "<|eom_id|") ++ [62%N])
      by (rewrite <- !app_assoc; reflexivity).
    apply text_ending_with_gt_is_not_json.
Qed.

Lemma tool_calls_text_str (end_marker : str) :
  end_marker = END_S \/ end_marker = EOM_ID ->
  tool_calls_str (msg ++ TOOL_CALLS ++ body ++ end_marker) = body.
Proof.
  intros M. unfold tool_calls_str.
  rewrite (tool_calls_text_index_end _ M), tool_calls_text_start.
  destruct (len msg + len TOOL_CALLS + len body =? -1) eqn:E;
    [apply Z.eqb_eq in E; unfold len in E; lia |].
  rewrite (app_assoc msg TOOL_CALLS).
  replace (len msg + len TOOL_CALLS) with (len (msg ++ TOOL_CALLS))
    by (unfold len; rewrite length_app; lia).
  apply slice_middle.
Qed.

End ToolCallsText.



Lemma suffix_of_text_ending_with_gt_is_not_json (s : str) (n : Z) :
  0 <= n -> Json.loads (strip (slice (s ++ [62%N]) (Some n) None)) = None.
Proof.
  intros Hn. rewrite slice_from by exact Hn.
  destruct (Nat.le_gt_cases (Z.to_nat n) (List.length s)) as [L | L].
  - rewrite skipn_app.
    replace (Z.to_nat n - List.length s)%nat with 0%nat by lia.
    cbn [skipn]. apply text_ending_with_gt_is_not_json.
  - rewrite skipn_all2 by (rewrite length_app; cbn [List.length]; lia).
    reflexivity.
Qed.

Section FunctioncallText.

Variables msg body : str.
Hypothesis msg_clean : ~ In LT msg.
Hypothesis body_clean : ~ In LT body.

Let text := msg ++ FUNCTIONCALL ++ body ++ FUNCTIONCALL_END.

Lemma functioncall_text_start : find FUNCTIONCALL text = len msg.
Proof. unfold find, text. spell. walk. lia. Qed.

Lemma functioncall_text_end :
  find FUNCTIONCALL_END text = len msg + len FUNCTIONCALL + len body.
Proof. unfold find, text. spell. walk. unfold len. cbn [List.length]. lia. Qed.

Lemma functioncall_text_other_markers :
  find TOOL_CALL text = -1 /\ find END_S text = -1 /\ find EOM_ID text = -1.
Proof. unfold find, text. spell. walk. repeat split. Qed.

Lemma functioncall_text_ends_with_gt :
  text = (msg ++ FUNCTIONCALL ++ body ++ lit "</functioncall") ++ [62%N].
Proof. unfold text. rewrite <- !app_assoc. reflexivity. Qed.

(** Step 3 of the Qwen extractor returns nothing on this text, whether or
    not [[TOOL_CALLS]] occurs in it. *)
Lemma functioncall_text_step3 :
  match qwen_tool_calls_str text with
  | Some function_call_str => Json.loads (strip function_call_str)
  | None => None
  end = None.
Proof.
  unfold qwen_tool_calls_str, tool_calls_index_end.
  destruct functioncall_text_other_markers as (_ & -> & ->).
  destruct (find_range TOOL_CALLS text) as [-> | R]; [reflexivity |].
  remember (find TOOL_CALLS text) as i eqn:Ei. clear Ei.
  destruct (i =? -1); [reflexivity |]. cbn [negb Z.eqb].
  rewrite functioncall_text_ends_with_gt.
  apply suffix_of_text_ending_with_gt_is_not_json. unfold len. lia.
Qed.

End FunctioncallText.




(** X17.  With [verbose] off the Qwen extractor prints nothing.  The
    generic extractor prints nothing exactly when it is given a dict, or
    the whole text decodes, or the [[TOOL_CALLS]] slice decodes: past that
    it prints whatever [verbose] says. *)
Theorem quiet_extraction (lst : llm_output) (return_message : bool) :
  snd (extract_function_call_json_from_qwen lst return_message false) = []
  /\ (snd (extract_function_call_json lst return_message false) = []
      <-> match lst with
          | Structured _ => True
          | Fragments l =>
              Json.loads (strip (join l)) <> None
              \/ Json.loads (strip (tool_calls_str (join l))) <> None
          end).
Proof.
  split.
  - destruct lst as [d | l]; [reflexivity |].
    unfold extract_function_call_json_from_qwen.
    destruct (Json.loads (strip (join l))); [reflexivity |].
    unfold qwen_tool_call.
    destruct (qwen_tool_call_str (join l)) as [x |];
      [destruct (Json.loads x); [reflexivity |] |];
    unfold qwen_tool_calls;
    (destruct (qwen_tool_calls_str (join l)) as [y |];
      [destruct (Json.loads (strip y)); [reflexivity |] |]);
    unfold qwen_functioncall;
    (destruct (qwen_functioncall_str (join l)) as [z |];
      [destruct (Json.loads (strip z)) |]);
    reflexivity.
  - destruct lst as [d | l]; [split; [exact (fun _ => I) | reflexivity] |].
    unfold extract_function_call_json.
    destruct (Json.loads (strip (join l)));
      [split; [left; discriminate | reflexivity] |].
    destruct (Json.loads (strip (tool_calls_str (join l))));
      [split; [right; discriminate | reflexivity] |].
    destruct (Json.loads (strip (functioncall_str (join l))));
      (split; [discriminate | intros [E | E]; contradiction]).
Qed.


(* ================================================================== *)
(** * Values are looked at through their class only *)
(* ================================================================== *)

Lemma same_classes_keys (args args' : dict) :
  same_classes args args' -> PyDict.keys args = PyDict.keys args'.
Proof.
  unfold PyDict.keys. induction 1 as [| a b l l' [E _] _ IH]; [reflexivity |].
  cbn [List.map]. rewrite E, IH. reflexivity.
Qed.

(** X6.  [evaluate_function_call] looks at the values of the arguments
    through their class alone: two calls of the same name whose arguments
    have the same keys, in the same order, with values of the same class,
    get the same verdict, reason included.  No range, length or content
    of a value is checked. *)
Theorem evaluate_function_call_sees_classes_only (td : tool_definition)
    (fname : str) (args args' : dict) :
  same_classes args args' ->
  evaluate_function_call td {| name := fname; arguments := args |}
  = evaluate_function_call td {| name := fname; arguments := args' |}.
Proof.
  intros S. rewrite !evaluate_function_call_unfold. cbn [name arguments].
  pose proof (same_classes_keys _ _ S) as K.
  assert (missing_params td {| name := fname; arguments := args |}
          = missing_params td {| name := fname; arguments := args' |}) as M.
  { unfold missing_params. cbn [arguments]. apply filter_ext. intros k.
    rewrite !dict_mem_existsb, K. reflexivity. }
  assert (first_unsupported (properties td) args
          = first_unsupported (properties td) args') as U.
  { clear K M. induction S as [| [k v] [k' v'] l l' [E _] _ IH]; [reflexivity |].
    cbn in E. subst k'. cbn [first_unsupported]. rewrite IH. reflexivity. }
  assert (unknown_arguments (properties td) args
          = unknown_arguments (properties td) args') as N
    by (unfold unknown_arguments; rewrite K; reflexivity).
  assert (expected_mismatches (properties td) args
          = expected_mismatches (properties td) args') as X.
  { unfold expected_mismatches.
    clear K M U N. induction S as [| [k v] [k' v'] l l' [E T] _ IH]; [reflexivity |].
    cbn in E, T. subst k'. cbn [flat_map fst snd]. rewrite IH.
    unfold isinstance. rewrite T. reflexivity. }
  cbn [arguments] in M. rewrite M, U, N, X. reflexivity.
Qed.

Lemma evaluate_function_call_sees_classes_only_witness :
  let td := {| tool_name := lit "Tool_RAG";
               properties := [(lit "description", {| type := lit "string"; required := Some true |});
                              (lit "limit", {| type := lit "integer"; required := None |})] |} in
  evaluate_function_call td
    {| name := lit "Tool_RAG";
       arguments := [(lit "description", VStr []); (lit "limit", VInt (-5))] |}
  = evaluate_function_call td
      {| name := lit "Tool_RAG";
         arguments := [(lit "description", VStr (lit "tools")); (lit "limit", VInt 1)] |}.
Proof.
  apply (evaluate_function_call_sees_classes_only
           {| tool_name := lit "Tool_RAG";
              properties := [(lit "description", {| type := lit "string"; required := Some true |});
                             (lit "limit", {| type := lit "integer"; required := None |})] |}
           (lit "Tool_RAG")
           [(lit "description", VStr []); (lit "limit", VInt (-5))]
           [(lit "description", VStr (lit "tools")); (lit "limit", VInt 1)]).
  repeat constructor.
Defined.

(** X12.  With [compare_value] off nothing is raised and no value is
    looked at: the calls are reported to match exactly when their names
    are equal and, if [compare_arguments] is on, their key sets are
    equal. *)
Theorem compare_without_values_match_iff (pred gt : function_call)
    (compare_arguments : bool) :
  compare_function_calls pred gt compare_arguments false = Return calls_match
  <-> name pred = name gt
      /\ (compare_arguments = true ->
          forall k, In k (PyDict.keys (arguments pred))
                    <-> In k (PyDict.keys (arguments gt))).
Proof.
  rewrite compare_function_calls_unfold.
  destruct (PyStr.eqb (name pred) (name gt)) eqn:N; cbn [negb].
  2:{ apply str_eqb_neq in N. split; [discriminate | intros [E _]; contradiction]. }
  apply str_eqb_eq in N.
  destruct compare_arguments; cbn [andb].
  - destruct (key_sets_differ (arguments pred) (arguments gt)) eqn:K.
    + split; [discriminate | intros [_ S]]. specialize (S eq_refl).
      apply key_sets_differ_false in S. congruence.
    + split; [intros _ | reflexivity]. split; [exact N | intros _].
      apply key_sets_differ_false, K.
  - split; [intros _ | reflexivity]. split; [exact N | discriminate].
Qed.
